(** * Genetic-Dots: the evolutionary core of [main.py]

    A shallow embedding of the classes [Brain], [Dot] and [Population] and of
    the driver loop of [main], with the properties of the specification stated
    against it.

    Conventions of the embedding.
    - numpy's [float64] and Python's [float] are Rocq's primitive binary64
      floats; an [int] that meets a float in an operation is converted first,
      as Python does: to the nearest float, ties to even, with an
      [OverflowError] beyond the largest one.
    - the numeric library is specified less tightly than the arithmetic: a
      power [x ** 0.5] is taken to be the IEEE square root, [d ** 2] the
      rounded product [d * d] and [np.linalg.norm] of a pair the square root
      of the rounded sum of the rounded squares.  numpy may differ from
      these in the last bit; [calculate_fitness_with] takes the norm and the
      square as arguments, and what is stated of it holds for every choice,
      and the magnitude of a sampled direction is bounded for every divisor
      within [2^-50] of the root.
    - a numpy array of shape (2,) is a pair, the array of directions and the
      array of dots are lists.
    - the flags [dead], [reached_goal] and [is_best], which hold 0 or 1, are
      booleans; the counters [step], [min_step], [gen], [dead_count] and
      [goal_count], which start at 0 (or 1, or 400) and only grow or are
      copied, are natural numbers.
    - the module-level counters [dead_count] and [goal_count] are threaded as
      a record of globals.
    - the random generator is an input: [gauss i] is the pair of values the
      two calls [gauss(0, 1)] return at entry [i], and [uniform a b] is the
      value the call [uniform(a, b)] returns; [seed], [print], [time],
      [sleep] and the drawing code have no counterpart.
    - an exception is a value of [result]. *)

From Stdlib Require Import Floats List Bool Arith ZArith Lia Lra.
From Stdlib Require Reals.
Import ListNotations.

Set Implicit Arguments.
Set Warnings "-inexact-float".

(* ================================================================= *)
(** ** Exceptions *)

Inductive exn : Type :=
| ZeroDivisionError
| IndexError
| AttributeError
| OverflowError.

Inductive result (A : Type) : Type :=
| Ok (a : A)
| Raise (e : exn).

Arguments Ok {A} a.
Arguments Raise {A} e.

Definition bind {A B : Type} (r : result A) (k : A -> result B) : result B :=
  match r with
  | Ok a => k a
  | Raise e => Raise e
  end.

Notation "x <- r ;; k" := (bind r (fun x => k))
  (at level 61, r at next level, right associativity).

(* ================================================================= *)
(** ** Numbers and vectors *)

Open Scope float_scope.

Definition vec : Type := (float * float)%type.

Definition vadd (a b : vec) : vec := (fst a + fst b, snd a + snd b).
Definition vsub (a b : vec) : vec := (fst a - fst b, snd a - snd b).

(** [c * v / m], evaluated from the left as Python does. *)
Definition vscale_div (c : float) (v : vec) (m : float) : vec :=
  (c * fst v / m, c * snd v / m).

(** [(v ** 2).sum() ** 0.5] and [np.linalg.norm v]. *)
Definition magnitude (v : vec) : float :=
  sqrt (fst v * fst v + snd v * snd v).

(** Conversion of a Python [int] that meets a float: the float nearest to
    [z], ties to even; an infinity stands for the values beyond the largest
    float, on which Python raises [OverflowError]. *)
Definition float_of_Z (z : Z) : float :=
  SF2Prim (binary_normalize prec emax z 0 false).

(** The random generator's answer to [uniform(a, b)]. *)
Definition uniform_source : Type := float -> float -> float.

(** [a > b] on floats. *)
Definition gtb (a b : float) : bool := b <? a.

(* ================================================================= *)
(** ** Configuration (module level of main.py) *)

Definition mutation_rate : float := 0.01.
Definition dot_max_velocity : float := 15.

Definition height : float := 800.
Definition width : float := 1600.

(** [rect = (left, top, width, height)]. *)
Definition rect : Type := (float * float * float * float)%type.
Definition rect_left (r : rect) : float := fst (fst (fst r)).
Definition rect_top (r : rect) : float := snd (fst (fst r)).
Definition rect_w (r : rect) : float := snd (fst r).
Definition rect_h (r : rect) : float := snd r.

Definition rect_1 : rect := (0, 200, width / 2.5, 50).
Definition rect_2 : rect := (width / 2, 500, width, 50).

Definition goal : vec := (20, width / 2).

(** Length of every brain built by [Dot()]. *)
Definition brain_size : nat := 400.

(* ================================================================= *)
(** ** Brain *)

Record Brain : Type := mkBrain {
  directions : list vec;
  step : nat
}.

(** The body of both sampling sites: [vec / mag] with
    [mag = (vec ** 2).sum() ** 0.5]. *)
Definition unit_vector (v : vec) : vec :=
  let mag := magnitude v in
  (fst v / mag, snd v / mag).

(** [Brain.randomize]: [gauss i] is the pair of values [gauss(0, 1)] returns
    for entry [i]. *)
Definition randomize (gauss : nat -> vec) (size : nat) : list vec :=
  map (fun i => unit_vector (gauss i)) (seq 0 size).

(** [Brain(size)]. *)
Definition Brain_new (gauss : nat -> vec) (size : nat) : Brain :=
  {| directions := randomize gauss size; step := 0 |}.

(** [Brain.clone]: a [Brain] of the same length whose directions are
    overwritten by [np.copyto] with those of [self]; its step is that of a
    new brain. *)
Definition clone (self : Brain) : Brain :=
  {| directions := directions self; step := 0 |}.

(** One pass of the loop of [Brain.mutate], at an entry that holds [d]. *)
Definition mutate_entry (uniform : uniform_source) (g : vec) (d : vec) : vec :=
  let rand := uniform 0 1 in
  if rand <? mutation_rate then unit_vector g else d.

Fixpoint mutate_from (i : nat) (uniform : nat -> uniform_source)
  (gauss : nat -> vec) (ds : list vec) : list vec :=
  match ds with
  | [] => []
  | d :: ds' =>
      mutate_entry (uniform i) (gauss i) d :: mutate_from (S i) uniform gauss ds'
  end.

(** [Brain.mutate]: [uniform i] answers the call [uniform(0, 1)] at entry
    [i], [gauss i] is the pair drawn there when the entry is replaced. *)
Definition mutate (uniform : nat -> uniform_source) (gauss : nat -> vec)
  (self : Brain) : Brain :=
  {| directions := mutate_from 0 uniform gauss (directions self);
     step := step self |}.

(* ================================================================= *)
(** ** Dot *)

Record Dot : Type := mkDot {
  brain : Brain;
  pos : vec;
  vel : vec;
  acc : vec;
  dead : bool;
  fitness : float;
  reached_goal : bool;
  is_best : bool
}.

Record Globals : Type := mkGlobals {
  dead_count : nat;
  goal_count : nat
}.

Definition start_pos : vec := (height - 125, width * 0.95).

(** [Dot()], given the brain its constructor builds. *)
Definition Dot_init (b : Brain) : Dot :=
  {| brain := b;
     pos := start_pos;
     vel := (0, 0);
     acc := (0, 0);
     dead := false;
     fitness := 0;
     reached_goal := false;
     is_best := false |}.

Definition Dot_new (gauss : nat -> vec) : Dot :=
  Dot_init (Brain_new gauss brain_size).

Definition set_dead (d : Dot) : Dot :=
  {| brain := brain d; pos := pos d; vel := vel d; acc := acc d;
     dead := true; fitness := fitness d;
     reached_goal := reached_goal d; is_best := is_best d |}.

Definition set_reached_goal (d : Dot) : Dot :=
  {| brain := brain d; pos := pos d; vel := vel d; acc := acc d;
     dead := dead d; fitness := fitness d;
     reached_goal := true; is_best := is_best d |}.

Definition set_is_best (d : Dot) : Dot :=
  {| brain := brain d; pos := pos d; vel := vel d; acc := acc d;
     dead := dead d; fitness := fitness d;
     reached_goal := reached_goal d; is_best := true |}.

Definition set_fitness (f : float) (d : Dot) : Dot :=
  {| brain := brain d; pos := pos d; vel := vel d; acc := acc d;
     dead := dead d; fitness := f;
     reached_goal := reached_goal d; is_best := is_best d |}.

Definition incr_dead (g : Globals) : Globals :=
  {| dead_count := S (dead_count g); goal_count := goal_count g |}.

Definition incr_goal (g : Globals) : Globals :=
  {| dead_count := dead_count g; goal_count := S (goal_count g) |}.

(** The [if]/[else] that opens [Dot.move]: take the next direction, or mark
    the dot dead when none is left. *)
Definition next_direction (self : Dot) (g : Globals) : Dot * Globals :=
  let b := brain self in
  if (step b <? length (directions b))%nat then
    ({| brain := {| directions := directions b; step := S (step b) |};
        pos := pos self; vel := vel self;
        acc := nth (step b) (directions b) (0, 0);
        dead := dead self; fitness := fitness self;
        reached_goal := reached_goal self; is_best := is_best self |}, g)
  else
    (set_dead self, incr_dead g).

(** The rest of [Dot.move], which runs after either branch. *)
Definition kinematics (self : Dot) : Dot :=
  let v := vadd (vel self) (acc self) in
  let velocity_mag := magnitude v in
  let v' := if gtb velocity_mag dot_max_velocity
            then vscale_div dot_max_velocity v velocity_mag
            else v in
  {| brain := brain self;
     pos := vadd (pos self) v';
     vel := v';
     acc := acc self;
     dead := dead self; fitness := fitness self;
     reached_goal := reached_goal self; is_best := is_best self |}.

(** [Dot.move]. *)
Definition move (self : Dot) (g : Globals) : Dot * Globals :=
  let '(d, g') := next_direction self g in
  (kinematics d, g').

Definition out_of_bounds (p : vec) : bool :=
  (fst p <? 2) || (snd p <? 2) || gtb (fst p) (height - 2)
  || gtb (snd p) (width - 2).

Definition in_goal (p : vec) : bool :=
  magnitude (vsub goal p) <? 20.

Definition in_rect (r : rect) (p : vec) : bool :=
  ((rect_top r <? fst p) && (fst p <? rect_top r + rect_h r))
  && ((rect_left r <? snd p) && (snd p <? rect_left r + rect_w r)).

(** The chain of tests of [Dot.update] on the position the move produced. *)
Definition check_collisions (self : Dot) (g : Globals) : Dot * Globals :=
  if out_of_bounds (pos self) then (set_dead self, incr_dead g)
  else if in_goal (pos self) then (set_reached_goal self, incr_goal g)
  else if in_rect rect_1 (pos self) then (set_dead self, incr_dead g)
  else if in_rect rect_2 (pos self) then (set_dead self, incr_dead g)
  else (self, g).

(** [Dot.update]. *)
Definition update (self : Dot) (g : Globals) : Dot * Globals :=
  if negb (dead self) && negb (reached_goal self) then
    let '(d, g') := move self g in
    check_collisions d g'
  else (self, g).

(** [distance_to_goal] of [Dot.calculate_fitness]. *)
Definition distance_to_goal (self : Dot) : float :=
  magnitude (vsub goal (pos self)).

(** [Dot.calculate_fitness], given what [np.linalg.norm] and the power
    [** 2] of a numpy float compute.  [1000.0 / (step ** 2)] divides a float
    by an int: the int is converted, which raises when it is too large, and
    the division raises on 0.  [1 / (distance_to_goal ** 2)] divides by a
    numpy float, which yields an infinity or a NaN on 0. *)
Definition calculate_fitness_with (norm : vec -> float)
  (power_2 : float -> float) (self : Dot) : result Dot :=
  if reached_goal self then
    let sq := (Z.of_nat (step (brain self)) ^ 2)%Z in
    if (sq =? 0)%Z then Raise ZeroDivisionError
    else if is_infinity (float_of_Z sq) then Raise OverflowError
    else Ok (set_fitness (1 / 16 + 1000 / float_of_Z sq) self)
  else
    let distance_to_goal := norm (vsub goal (pos self)) in
    Ok (set_fitness (1 / power_2 distance_to_goal) self).

(** [Dot.calculate_fitness] with the norm and the square of the
    conventions. *)
Definition calculate_fitness (self : Dot) : result Dot :=
  calculate_fitness_with magnitude (fun d => d * d) self.

(** [Dot.get_baby]: a new [Dot] whose brain is replaced by a clone of the
    parent's. *)
Definition get_baby (self : Dot) : Dot :=
  Dot_init (clone (brain self)).

(* ================================================================= *)
(** ** Population *)

Record Population : Type := mkPopulation {
  fitness_sum : float;
  gen : nat;
  best_dot : nat;
  min_step : nat;
  dots : list Dot
}.

(** [Population(size)]: [gauss i j] is the pair drawn for entry [j] of the
    brain of dot [i]. *)
Definition Population_new (gauss : nat -> nat -> vec) (size : nat)
  : Population :=
  {| fitness_sum := 0;
     gen := 1;
     best_dot := 0;
     min_step := 400;
     dots := map (fun i => Dot_new (gauss i)) (seq 0 size) |}.

Definition set_dots (ds : list Dot) (p : Population) : Population :=
  {| fitness_sum := fitness_sum p; gen := gen p; best_dot := best_dot p;
     min_step := min_step p; dots := ds |}.

(** The body of the loop of [Population.update] for one dot. *)
Definition update_dot (min_step : nat) (d : Dot) (g : Globals)
  : Dot * Globals :=
  if (min_step <? step (brain d))%nat
  then (set_dead d, incr_dead g)
  else update d g.

Fixpoint update_dots (min_step : nat) (ds : list Dot) (g : Globals)
  : list Dot * Globals :=
  match ds with
  | [] => ([], g)
  | d :: ds' =>
      let '(d', g') := update_dot min_step d g in
      let '(ds'', g'') := update_dots min_step ds' g' in
      (d' :: ds'', g'')
  end.

(** [Population.update]. *)
Definition Population_update (self : Population) (g : Globals)
  : Population * Globals :=
  let '(ds, g') := update_dots (min_step self) (dots self) g in
  (set_dots ds self, g').

Fixpoint calculate_fitness_dots (ds : list Dot) : result (list Dot) :=
  match ds with
  | [] => Ok []
  | d :: ds' =>
      d' <- calculate_fitness d ;;
      ds'' <- calculate_fitness_dots ds' ;;
      Ok (d' :: ds'')
  end.

(** [Population.calculate_fitness]. *)
Definition Population_calculate_fitness (self : Population)
  : result Population :=
  ds <- calculate_fitness_dots (dots self) ;;
  Ok (set_dots ds self).

(** [Population.all_dots_dead]. *)
Definition all_dots_dead (self : Population) : bool :=
  forallb (fun d => negb (negb (dead d) && negb (reached_goal d))) (dots self).

(** The loop of [Population.set_best_dot] from index [i] on, entered with
    the running [max_fitness] and [max_index]. *)
Fixpoint best_from (i : nat) (ds : list Dot) (max_fitness : float)
  (max_index : nat) : float * nat :=
  match ds with
  | [] => (max_fitness, max_index)
  | d :: ds' =>
      if gtb (fitness d) max_fitness
      then best_from (S i) ds' (fitness d) i
      else best_from (S i) ds' max_fitness max_index
  end.

Definition index {A : Type} (l : list A) (i : nat) : result A :=
  match nth_error l i with
  | Some a => Ok a
  | None => Raise IndexError
  end.

(** [Population.set_best_dot]. *)
Definition set_best_dot (self : Population) : result Population :=
  let max_index := snd (best_from 0 (dots self) 0 0) in
  best <- index (dots self) max_index ;;
  Ok {| fitness_sum := fitness_sum self;
        gen := gen self;
        best_dot := max_index;
        min_step := if reached_goal best then step (brain best)
                    else min_step self;
        dots := dots self |}.

(** The loops of [calculate_fitness_sum] and of [select_parent] add the
    fitnesses from the left, starting from 0. *)
Definition add_fitness (running_sum : float) (d : Dot) : float :=
  running_sum + fitness d.

(** [Population.calculate_fitness_sum]. *)
Definition calculate_fitness_sum (self : Population) : Population :=
  {| fitness_sum := fold_left add_fitness (dots self) 0;
     gen := gen self; best_dot := best_dot self;
     min_step := min_step self; dots := dots self |}.

(** What [select_parent] returns: a dot of the population, or the integer
    of its last line. *)
Inductive selected : Type :=
| Parent (d : Dot)
| Int (z : Z).

Fixpoint select_from (ds : list Dot) (running_sum rand : float) : selected :=
  match ds with
  | [] => Int 0
  | d :: ds' =>
      let running_sum' := add_fitness running_sum d in
      if gtb running_sum' rand then Parent d
      else select_from ds' running_sum' rand
  end.

(** [Population.select_parent]. *)
Definition select_parent (uniform : uniform_source) (self : Population)
  : selected :=
  let rand := uniform 0 (fitness_sum self) in
  select_from (dots self) 0 rand.

(** [parent.get_baby()] on what [select_parent] returned. *)
Definition baby_of (s : selected) : result Dot :=
  match s with
  | Parent d => Ok (get_baby d)
  | Int _ => Raise AttributeError
  end.

(** The loop of [natural_selection] over the slots [i .. i + n - 1] of
    [new_dots]; [uniform i] answers the call of [select_parent] for slot
    [i]. *)
Fixpoint babies_from (self : Population) (uniform : nat -> uniform_source)
  (i n : nat) : result (list Dot) :=
  match n with
  | O => Ok []
  | S n' =>
      baby <- baby_of (select_parent (uniform i) self) ;;
      rest <- babies_from self uniform (S i) n' ;;
      Ok (baby :: rest)
  end.

(** [Population.natural_selection]. *)
Definition natural_selection (uniform : nat -> uniform_source)
  (self : Population) : result Population :=
  self1 <- set_best_dot self ;;
  best <- index (dots self1) (best_dot self1) ;;
  let new_dots_0 := set_is_best (get_baby best) in
  let self2 := calculate_fitness_sum self1 in
  babies <- babies_from self2 uniform 1 (length (dots self2) - 1) ;;
  Ok {| fitness_sum := fitness_sum self2;
        gen := S (gen self2);
        best_dot := best_dot self2;
        min_step := min_step self2;
        dots := new_dots_0 :: babies |}.

Definition set_brain (b : Brain) (d : Dot) : Dot :=
  {| brain := b; pos := pos d; vel := vel d; acc := acc d;
     dead := dead d; fitness := fitness d;
     reached_goal := reached_goal d; is_best := is_best d |}.

Fixpoint mutate_dots_from (i : nat) (uniform : nat -> nat -> uniform_source)
  (gauss : nat -> nat -> vec) (ds : list Dot) : list Dot :=
  match ds with
  | [] => []
  | d :: ds' =>
      set_brain (mutate (uniform i) (gauss i) (brain d)) d
      :: mutate_dots_from (S i) uniform gauss ds'
  end.

(** [Population.mutate_babies]: the loop starts at index 1. *)
Definition mutate_babies (uniform : nat -> nat -> uniform_source)
  (gauss : nat -> nat -> vec) (self : Population) : Population :=
  match dots self with
  | [] => self
  | d0 :: ds => set_dots (d0 :: mutate_dots_from 1 uniform gauss ds) self
  end.

(* ================================================================= *)
(** ** The driver loop of [main] *)

(** The random values one pass of the loop may ask for. *)
Record Draws : Type := mkDraws {
  select_draw : nat -> uniform_source;
  mutate_draw : nat -> nat -> uniform_source;
  gauss_draw : nat -> nat -> vec
}.

(** One pass of the [while running] loop, without the drawing: the genetic
    algorithm when no dot is active, one update of the swarm otherwise. *)
Definition main_pass (r : Draws) (st : Population * Globals)
  : result (Population * Globals) :=
  let '(swarm, g) := st in
  if all_dots_dead swarm then
    let g' := {| dead_count := 0; goal_count := 0 |} in
    s1 <- Population_calculate_fitness swarm ;;
    s2 <- natural_selection (select_draw r) s1 ;;
    Ok (mutate_babies (mutate_draw r) (gauss_draw r) s2, g')
  else Ok (Population_update swarm g).

Definition main_start (gauss : nat -> nat -> vec) (swarm_size : nat)
  : Population * Globals :=
  (Population_new gauss swarm_size, {| dead_count := 0; goal_count := 0 |}).

(** [n] passes of the loop from [st]; pass [k] draws from [r k]. *)
Fixpoint main_loop (r : nat -> Draws) (n : nat) (st : Population * Globals)
  : result (Population * Globals) :=
  match n with
  | O => Ok st
  | S k => st' <- main_loop r k st ;; main_pass (r k) st'
  end.

(** What a display of the swarm reads off dot [i]: its step, position,
    velocity and the two flags. *)
Definition observe (st : result (Population * Globals)) (i : nat)
  : option (nat * vec * vec * bool * bool) :=
  match st with
  | Ok (p, _) =>
      option_map
        (fun d => (step (brain d), pos d, vel d, dead d, reached_goal d))
        (nth_error (dots p) i)
  | Raise _ => None
  end.

Definition counters (st : result (Population * Globals))
  : option (nat * nat) :=
  match st with
  | Ok (_, g) => Some (dead_count g, goal_count g)
  | Raise _ => None
  end.

Definition swarm_of (st : result (Population * Globals))
  : option Population :=
  match st with
  | Ok (p, _) => Some p
  | Raise _ => None
  end.

(* ================================================================= *)
(** ** Concrete runs

    Each run fixes the values the random generator returns.  A draw [(1, 0)],
    [(-1, 0)], [(0, 1)] or [(0, -1)] has magnitude 1 and is stored as it is,
    and every position and velocity below is a small integer, so that the
    arithmetic is exact. *)

Definition draws_of (l : list vec) : nat -> vec := fun i => nth i l (0, 0).

Definition cycles {A : Type} (n : nat) (l : list A) : list A :=
  concat (repeat l n).

(** Two steps that advance axis 0 by one and come to rest. *)
Definition nudge : list vec := [(1, 0); (-1, 0)].

(** Four steps that end where they began, at rest. *)
Definition hover : list vec := [(1, 0); (-1, 0); (-1, 0); (1, 0)].

(** From the start to (675, 800), at rest after 63 steps. *)
Definition to_goal_column : list vec :=
  repeat (0, -1) 48 ++ repeat (0, 1) 15.

(** One step more, to (675, 785). *)
Definition past_goal_column : list vec :=
  repeat (0, -1) 49 ++ repeat (0, 1) 15.

(** A dot that stays around the start for its 400 steps. *)
Definition hover_draws : list vec := cycles 100 hover.

(** A dot that walks to the lower edge and is at (798, 1521) with velocity
    (2, 0) when its directions run out. *)
Definition edge_draws : list vec :=
  cycles 120 nudge ++ cycles 39 hover ++ [(0, 1); (0, -1); (1, 0); (1, 0)].

(** A dot that walks to (45, 800), waits there and is at (42, 801) with
    velocity (-2, 0) when its directions run out. *)
Definition late_draws : list vec :=
  to_goal_column ++ repeat (-1, 0) 42 ++ repeat (1, 0) 15
  ++ cycles 69 hover ++ [(0, 1); (0, -1); (-1, 0); (-1, 0)].

(** A dot that enters the goal on its step 113. *)
Definition fast_draws : list vec :=
  to_goal_column ++ repeat (-1, 0) 50 ++ repeat (1, 0) 287.

(** A dot that enters the goal on its step 114. *)
Definition slow_draws : list vec :=
  past_goal_column ++ repeat (-1, 0) 50 ++ repeat (1, 0) 286.

Definition no_draws : Draws :=
  {| select_draw := fun _ _ _ => 0;
     mutate_draw := fun _ _ _ _ => 0.5;
     gauss_draw := fun _ _ => (1, 0) |}.

Definition hover_start : Population * Globals :=
  main_start (fun _ => draws_of hover_draws) 1.

Definition edge_start : Population * Globals :=
  main_start (fun _ => draws_of edge_draws) 1.

Definition late_start : Population * Globals :=
  main_start (fun _ => draws_of late_draws) 1.

(** A swarm of three: the fast dot, the slow dot and the hovering dot. *)
Definition trio_start : Population * Globals :=
  main_start
    (fun i => draws_of (nth i [fast_draws; slow_draws; hover_draws] []))
    3.

(** At the end of the first generation [select_parent] answers 0.2 for slot
    1 and 0.280262 for slot 2, and no entry is mutated. *)
Definition trio_draws : Draws :=
  {| select_draw := fun i _ _ => nth i [0; 0.2; 0.280262] 0;
     mutate_draw := fun _ _ _ _ => 0.5;
     gauss_draw := fun _ _ => (1, 0) |}.

(** A dot that rests on the centre of the goal without the flag. *)
Definition dot_on_goal : Dot :=
  {| brain := {| directions := [(1, 0)]; step := 1 |};
     pos := goal; vel := (0, 0); acc := (1, 0);
     dead := true; fitness := 0; reached_goal := false; is_best := false |}.

(** A dot of the given fitness. *)
Definition dot_of_fitness (f : float) : Dot :=
  set_fitness f (Dot_init {| directions := [(1, 0)]; step := 1 |}).

Definition population_of (ds : list Dot) : Population :=
  {| fitness_sum := 0; gen := 1; best_dot := 0; min_step := 400; dots := ds |}.

(** Two dots of fitness 4 and 6, and the generator answering 3.9. *)
Definition two_dots : Population :=
  population_of [dot_of_fitness 4; dot_of_fitness 6].

Definition answer_3_9 : nat -> uniform_source := fun _ _ _ => 3.9.

(** The running sum of [select_parent] after the first [k] dots. *)
Definition running_sum_after (ds : list Dot) (k : nat) : float :=
  fold_left add_fitness (firstn k ds) 0.

(** [float_of_Z z] has the value [z]: its mantissa and exponent give [z]
    back. *)
Definition converts_exactly (z : Z) : bool :=
  match Prim2SF (float_of_Z z) with
  | S754_finite false m e => (Z.shiftl (Zpos m) e =? z)%Z
                             && (Z.shiftl z (- e) =? Zpos m)%Z
  | S754_zero false => (z =? 0)%Z
  | _ => false
  end.

(** A dot is terminal when one of its two flags is set. *)
Definition terminal (d : Dot) : bool := dead d || reached_goal d.

(* ================================================================= *)
(** ** Runs of the program *)

Unset Implicit Arguments.

(** The states the loop of [main] reaches with a swarm of [swarm_size] dots,
    whatever the random generator returns. *)
Inductive reachable (swarm_size : nat) : Population * Globals -> Prop :=
| reachable_start (gauss : nat -> nat -> vec) :
    reachable swarm_size (main_start gauss swarm_size)
| reachable_pass (r : Draws) (st st' : Population * Globals) :
    reachable swarm_size st ->
    main_pass r st = Ok st' ->
    reachable swarm_size st'.

(** The dot [Dot.update] leaves; the counters have no part in it. *)
Definition advance (d : Dot) : Dot :=
  fst (update d {| dead_count := 0; goal_count := 0 |}).

(** A dot without what only the selection writes: its fitness and the mark
    of the best. *)
Definition bare (d : Dot) : Dot :=
  {| brain := brain d; pos := pos d; vel := vel d; acc := acc d;
     dead := dead d; fitness := 0;
     reached_goal := reached_goal d; is_best := false |}.

(** A new dot with the directions [g], after [k] calls of [Dot.update]. *)
Definition trajectory (g : list vec) (k : nat) : Dot :=
  Nat.iter k advance (Dot_init {| directions := g; step := 0 |}).

(** Where [Dot.update] leaves a dot without the flag [reached_goal]: out
    of the window, or not within the goal. *)
Definition far (p : vec) : bool := out_of_bounds p || negb (in_goal p).

(** The fitness of a dot that reached the goal with [s] steps. *)
Definition reached_fitness (s : nat) : float :=
  1 / 16 + 1000 / float_of_Z (Z.of_nat s ^ 2).

(** A dot of a run is a new dot moved some number of times by [Dot.update],
    and possibly killed by [Population.update] after that. *)
Definition on_track (d : Dot) : Prop :=
  length (directions (brain d)) = brain_size /\
  exists k,
    bare d = trajectory (directions (brain d)) k \/
    bare d = set_dead (trajectory (directions (brain d)) k).

(** The dot in slot 0 carries directions that reach the goal with exactly
    [s] steps, and it has not been killed. *)
Definition elite_replays (s : nat) (d : Dot) : Prop :=
  (exists k, bare d = trajectory (directions (brain d)) k) /\
  reached_goal (trajectory (directions (brain d)) s) = true /\
  step (brain (trajectory (directions (brain d)) s)) = s.

(** What every state of a run satisfies: the dots are on their tracks, none
    is more than one step over the budget, the budget is at most the length
    of a brain, and below it slot 0 repeats the budget. *)
Definition run_invariant (p : Population) : Prop :=
  Forall on_track (dots p) /\
  Forall (fun d => (step (brain d) <= S (min_step p))%nat) (dots p) /\
  (min_step p <= brain_size)%nat /\
  ((min_step p < brain_size)%nat ->
   exists d0 rest, dots p = d0 :: rest /\ elite_replays (min_step p) d0).

(** What [calculate_fitness] leaves on a dot of a run whose budget is
    [m]: the fitness of its step count when it reached the goal, and a
    fitness that is not above 1/16 otherwise. *)
Definition scored (m : nat) (d : Dot) : Prop :=
  (reached_goal d = true /\
   (1 <= step (brain d) <= brain_size)%nat /\
   (step (brain d) <= S m)%nat /\
   fitness d = reached_fitness (step (brain d))) \/
  (reached_goal d = false /\ (0.0625 <? fitness d) = false).

(** [random.uniform(a, b)] of Python's library, [a + (b - a) * random()],
    for the value [r] that [random()] returns. *)
Definition python_uniform (r : float) : uniform_source :=
  fun a b => a + (b - a) * r.

(** A generator that answers [select_parent] with the upper end of the
    range it is asked for. *)
Definition upper_draws : Draws :=
  {| select_draw := fun _ _ b => b;
     mutate_draw := fun _ _ _ _ => 0.5;
     gauss_draw := fun _ _ => (1, 0) |}.

(** The number of dots with a flag set. *)
Definition count_dead (ds : list Dot) : nat :=
  length (filter dead ds).

Definition count_reached (ds : list Dot) : nat :=
  length (filter reached_goal ds).

(* ================================================================= *)
(** ** Classes of binary64 values

    A finite value [m * 2^e] is measured by [digits m + e], one more than
    the exponent of its leading bit. *)

Section Classes.

Local Open Scope Z_scope.

Definition digits (m : positive) : Z := Zpos (digits2_pos m).

Definition sign_of (v : Z) : bool := v <? 0.

(** Infinite, or of magnitude at least [2^(k-1)]. *)
Definition big (k : Z) (x : spec_float) : Prop :=
  match x with
  | S754_infinity _ => True
  | S754_finite _ m e => k <= digits m + e
  | _ => False
  end.

Definition posbig (k : Z) (x : spec_float) : Prop :=
  match x with
  | S754_infinity false => True
  | S754_finite false m e => k <= digits m + e
  | _ => False
  end.

Definition nonneg (x : spec_float) : Prop :=
  match x with
  | S754_nan => True
  | S754_zero _ => True
  | S754_infinity s => s = false
  | S754_finite s _ _ => s = false
  end.

Definition nan_or_posbig (k : Z) (x : spec_float) : Prop :=
  x = S754_nan \/ posbig k x.

(** Zero, or of magnitude below [2^(-4)]. *)
Definition small (x : spec_float) : Prop :=
  match x with
  | S754_zero _ => True
  | S754_finite _ m e => digits m + e <= -4
  | _ => False
  end.

Definition SF1 : spec_float := S754_finite false 4503599627370496 (-52).
Definition SF16th : spec_float := S754_finite false 4503599627370496 (-56).
Definition SF20 : spec_float := S754_finite false 5629499534213120 (-48).
Definition SF800 : spec_float := S754_finite false 7036874417766400 (-43).

End Classes.

(** *** Floats as real numbers

    [bpow e] is [2^e].  A finite value [m * 2^e] with sign [s] stands for
    the real number [SFR] gives, of magnitude [Rmag]; a zero, an infinity
    and [nan] are given the value 0, and [SFfinite] tells the numbers from
    the infinities and [nan]. *)

Definition bpow (e : Z) : Rdefinitions.R :=
  Rfunctions.powerRZ (Rdefinitions.IZR 2) e.







Set Implicit Arguments.

(* ================================================================= *)
(** * Properties *)

(** ** Terminal dots under [Dot.update] and [Population.update] *)

Lemma update_terminal (d : Dot) (g : Globals) :
  terminal d = true -> update d g = (d, g).
Proof.
  unfold terminal, update. intros H.
  destruct (dead d), (reached_goal d); simpl in *; congruence.
Qed.

(** The branch of [Population.update] that kills a dot leaves everything but
    the flag [dead] and the counter as they were. *)
Lemma update_dot_terminal_frame (m : nat) (d : Dot) (g : Globals) :
  terminal d = true ->
  let d' := fst (update_dot m d g) in
  brain d' = brain d /\ pos d' = pos d /\ vel d' = vel d /\
  reached_goal d' = reached_goal d /\ (dead d = true -> dead d' = true).
Proof.
  intros H. unfold update_dot.
  destruct (m <? step (brain d))%nat; simpl.
  - repeat split; auto.
  - rewrite (update_terminal d g H). simpl. repeat split; auto.
Qed.

(** An active dot whose directions are used up is marked dead and then moved
    and tested like any other. *)
Lemma update_exhausted (d : Dot) (g : Globals) :
  terminal d = false ->
  step (brain d) = length (directions (brain d)) ->
  update d g = check_collisions (kinematics (set_dead d)) (incr_dead g).
Proof.
  unfold terminal, update, move, next_direction. intros H E.
  destruct (dead d), (reached_goal d); simpl in H; try discriminate.
  simpl. rewrite E, Nat.ltb_irrefl. reflexivity.
Qed.

(** C1. The two flags are not exclusive and a dot that reached the goal is
    not left alone by [Population.update]: in the run of the fast, the slow
    and the hovering dot, the second generation runs with [min_step = 113];
    its dot 1 reaches the goal on pass 114 of that generation with step 114,
    dot 2 is still active, and the next pass, which is one
    [Population.update], sets [dead] on dot 1 as well.  Position and velocity
    stay as they were.  The two answers of [select_parent]'s generator lie
    below the sum of the fitnesses the first generation ends with. *)
Theorem update_kills_a_dot_that_reached_the_goal :
  let run := main_loop (fun _ => trio_draws) in
  option_map all_dots_dead (swarm_of (run 401%nat trio_start)) = Some true /\
  option_map
    (fun p => match Population_calculate_fitness p with
              | Ok q => (0.2 <? fitness_sum (calculate_fitness_sum q))
                        && (0.280262 <? fitness_sum (calculate_fitness_sum q))
              | Raise _ => false
              end)
    (swarm_of (run 401%nat trio_start)) = Some true /\
  option_map min_step (swarm_of (run 402%nat trio_start)) = Some 113%nat /\
  observe (run 516%nat trio_start) 1
  = Some (114%nat, (30, 785), (-15, 0), false, true) /\
  option_map all_dots_dead (swarm_of (run 516%nat trio_start)) = Some false /\
  observe (run 517%nat trio_start) 1
  = Some (114%nat, (30, 785), (-15, 0), true, true).
Proof.
  repeat split; vm_compute; reflexivity.
Qed.

(** C2. A dot whose directions are used up is not stopped: the hovering dot
    is active after 400 passes, with as many steps as directions, at rest on
    (675, 1520); the next pass marks it dead and moves it to (676, 1520)
    with velocity (1, 0), its last acceleration applied once more. *)
Theorem exhausted_dot_is_moved :
  let run := main_loop (fun _ => no_draws) in
  observe (run 400%nat hover_start) 0
  = Some (400%nat, (675, 1520), (0, 0), false, false) /\
  option_map (fun p => map (fun d => length (directions (brain d))) (dots p))
    (swarm_of (run 400%nat hover_start)) = Some [400%nat] /\
  observe (run 401%nat hover_start) 0
  = Some (400%nat, (676, 1520), (1, 0), true, false).
Proof.
  repeat split; vm_compute; reflexivity.
Qed.

(** C9. The counters count a dot more than once.  The dot that walks to the
    edge is alone in its swarm; on pass 401 its directions are used up, it is
    counted, moved out of the window and counted again: [dead_count] is 2
    for one dead dot.  The dot with the late entry is counted dead on pass
    401 and, moved into the goal by the same call, counted as having reached
    it.  In the second generation of the three dots, dot 1 is counted on
    reaching the goal and again as dead one pass later: the counters read 2
    and 2 for three dots. *)
Theorem counters_count_a_dot_twice :
  let run := main_loop (fun _ => no_draws) in
  let run3 := main_loop (fun _ => trio_draws) in
  counters (run 400%nat edge_start) = Some (0%nat, 0%nat) /\
  observe (run 401%nat edge_start) 0
  = Some (400%nat, (801, 1521), (3, 0), true, false) /\
  counters (run 401%nat edge_start) = Some (2%nat, 0%nat) /\
  observe (run 400%nat late_start) 0
  = Some (400%nat, (42, 801), (-2, 0), false, false) /\
  observe (run 401%nat late_start) 0
  = Some (400%nat, (39, 801), (-3, 0), true, true) /\
  counters (run 401%nat late_start) = Some (1%nat, 1%nat) /\
  counters (run3 402%nat trio_start) = Some (0%nat, 0%nat) /\
  counters (run3 516%nat trio_start) = Some (0%nat, 2%nat) /\
  counters (run3 517%nat trio_start) = Some (2%nat, 2%nat) /\
  option_map (fun p => length (dots p)) (swarm_of (run3 517%nat trio_start))
  = Some 3%nat.
Proof.
  repeat split; vm_compute; reflexivity.
Qed.

(** ** Fitness *)

(** C3, as the specification states it, fails: nothing guards the division.
    For a dot that rests on the centre of the goal without the flag
    [reached_goal], the distance is 0 and the fitness the quotient 1 / 0. *)
Lemma fitness_divides_by_zero_on_goal :
  reached_goal dot_on_goal = false /\
  pos dot_on_goal = goal /\
  distance_to_goal dot_on_goal * distance_to_goal dot_on_goal = 0 /\
  calculate_fitness dot_on_goal = Ok (set_fitness infinity dot_on_goal).
Proof.
  repeat split.
Qed.

(** The squares of the step counts a brain of 400 directions allows are
    converted without rounding, and none is too large. *)
Lemma conversion_table :
  forallb (fun s => let sq := (Z.of_nat s ^ 2)%Z in
                    negb (is_infinity (float_of_Z sq)) && converts_exactly sq)
    (seq 1 400)
  = true.
Proof. vm_compute. reflexivity. Qed.

(** C3, amended.  For a dot with the flag [reached_goal], [calculate_fitness]
    raises [ZeroDivisionError] when the step counter of its brain is 0 and
    sets the fitness to [1/16 + 1000/step^2] otherwise, with [step^2]
    converted to the nearest float: without rounding for the step counts up
    to 400 that a brain allows, and with an [OverflowError] when the square
    is beyond the floats.  For any other dot it sets the fitness to [1/d^2],
    for [d] the norm of the difference between the goal and the position,
    whatever the norm and the square compute and whatever [d] is: when the
    square is 0, as it is on the centre of the goal, the fitness is
    infinite.  Nothing guards that division. *)
Theorem calculate_fitness_formula (norm : vec -> float)
  (power_2 : float -> float) (d : Dot) :
  let sq := (Z.of_nat (step (brain d)) ^ 2)%Z in
  let distance := norm (vsub goal (pos d)) in
  (reached_goal d = true -> step (brain d) = 0%nat ->
   calculate_fitness_with norm power_2 d = Raise ZeroDivisionError) /\
  (reached_goal d = true -> (1 <= step (brain d) <= brain_size)%nat ->
   converts_exactly sq = true /\
   calculate_fitness_with norm power_2 d
   = Ok (set_fitness (1 / 16 + 1000 / float_of_Z sq) d)) /\
  (reached_goal d = true -> step (brain d) <> 0%nat ->
   calculate_fitness_with norm power_2 d
   = if is_infinity (float_of_Z sq) then Raise OverflowError
     else Ok (set_fitness (1 / 16 + 1000 / float_of_Z sq) d)) /\
  (reached_goal d = false ->
   calculate_fitness_with norm power_2 d
   = Ok (set_fitness (1 / power_2 distance) d)) /\
  (reached_goal d = false -> power_2 distance = 0 ->
   calculate_fitness_with norm power_2 d = Ok (set_fitness infinity d)) /\
  calculate_fitness d = calculate_fitness_with magnitude (fun x => x * x) d /\
  (reached_goal d = false -> pos d = goal ->
   distance_to_goal d * distance_to_goal d = 0 /\
   calculate_fitness d = Ok (set_fitness infinity d)).
Proof.
  intros sq distance. unfold calculate_fitness, calculate_fitness_with.
  fold sq. fold distance.
  assert (step (brain d) <> 0%nat -> (sq =? 0)%Z = false) as Nz.
  { intros N. apply Z.eqb_neq. subst sq. rewrite Z.pow_2_r.
    clear - N. nia. }
  split; [| split; [| split; [| split; [| split; [| split]]]]].
  - intros R Z. rewrite R. subst sq. rewrite Z. reflexivity.
  - intros R [L U]. rewrite R, Nz by lia.
    pose proof conversion_table as T. rewrite forallb_forall in T.
    specialize (T (step (brain d))
                  ltac:(apply in_seq; unfold brain_size in U; lia)).
    cbv zeta in T. fold sq in T.
    apply andb_true_iff in T. destruct T as [F E].
    apply negb_true_iff in F. rewrite F. split; [exact E | reflexivity].
  - intros R N. rewrite R, (Nz N). reflexivity.
  - intros R. rewrite R. reflexivity.
  - intros R Z. rewrite R, Z. reflexivity.
  - reflexivity.
  - intros R P. rewrite R. unfold distance_to_goal. rewrite P.
    split; reflexivity.
Qed.

(** ** Selection of a parent *)

Lemma select_from_first_exceeding (rand : float) :
  forall (ds : list Dot) (s : float),
    match select_from ds s rand with
    | Parent d =>
        exists i, nth_error ds i = Some d /\
          gtb (fold_left add_fitness (firstn (S i) ds) s) rand = true /\
          forall j, (j < i)%nat ->
            gtb (fold_left add_fitness (firstn (S j) ds) s) rand = false
    | Int z =>
        z = 0%Z /\
        forall j, (j < length ds)%nat ->
          gtb (fold_left add_fitness (firstn (S j) ds) s) rand = false
    end.
Proof.
  induction ds as [| d ds IH]; intros s; simpl.
  - split; [reflexivity | intros j Hj; lia].
  - destruct (gtb (add_fitness s d) rand) eqn:E.
    + exists 0%nat. simpl. repeat split; auto. intros j Hj. lia.
    + specialize (IH (add_fitness s d)).
      destruct (select_from ds (add_fitness s d) rand) as [p | z].
      * destruct IH as (i & Hi & Hgt & Hlt).
        exists (S i). simpl. repeat split; auto.
        intros [| j] Hj; simpl.
        -- exact E.
        -- apply Hlt. lia.
      * destruct IH as (Hz & Hall). split; auto.
        intros [| j] Hj; simpl.
        -- exact E.
        -- apply Hall. lia.
Qed.

Lemma select_from_In (rand : float) :
  forall (ds : list Dot) (s : float) (d : Dot),
    select_from ds s rand = Parent d -> In d ds.
Proof.
  induction ds as [| d0 ds IH]; intros s d; simpl.
  - discriminate.
  - destruct (gtb (add_fitness s d0) rand).
    + intros H. injection H as ->. now left.
    + intros H. right. eapply IH, H.
Qed.

Lemma select_from_zero_fitness (ds : list Dot) :
  Forall (fun d => fitness d = 0) ds -> select_from ds 0 0 = Int 0.
Proof.
  induction 1 as [| d ds Hd _ IH]; simpl.
  - reflexivity.
  - unfold add_fitness. rewrite Hd. exact IH.
Qed.

Lemma fold_zero_fitness (ds : list Dot) :
  Forall (fun d => fitness d = 0) ds -> fold_left add_fitness ds 0 = 0.
Proof.
  induction 1 as [| d ds Hd _ IH]; simpl.
  - reflexivity.
  - unfold add_fitness at 2. rewrite Hd. exact IH.
Qed.

(** C4, as the specification states it, fails: there is no fallback.  With
    two dots of fitness 0 the sum is 0, the generator can only answer 0, no
    running sum exceeds it and [select_parent] returns the integer 0, on which
    [natural_selection] then fails. *)
Lemma select_parent_zero_sum_returns_no_dot :
  let p := calculate_fitness_sum
             (population_of [dot_of_fitness 0; dot_of_fitness 0]) in
  fitness_sum p = 0 /\
  select_parent (fun _ _ => 0) p = Int 0 /\
  natural_selection (fun _ _ _ => 0) p = Raise AttributeError.
Proof.
  repeat split.
Qed.

(** C4, amended.  [select_parent] asks the generator for one value [rand]
    between 0 and [fitness_sum] and returns the first dot, in the order of
    the population, after which the running sum of the fitnesses is greater
    than [rand]; when no running sum is, it returns the integer 0.  With
    fitnesses 4 and 6 the answer 3.9 selects dot 0 and the answer 4.1 dot 1.
    When every fitness is 0, and the generator therefore answers 0, the
    integer 0 is what it returns. *)
Theorem select_parent_first_exceeding (uniform : uniform_source)
  (p : Population) :
  let rand := uniform 0 (fitness_sum p) in
  match select_parent uniform p with
  | Parent d =>
      exists i, nth_error (dots p) i = Some d /\
        gtb (running_sum_after (dots p) (S i)) rand = true /\
        forall j, (j < i)%nat ->
          gtb (running_sum_after (dots p) (S j)) rand = false
  | Int z =>
      z = 0%Z /\
      forall j, (j < length (dots p))%nat ->
        gtb (running_sum_after (dots p) (S j)) rand = false
  end /\
  (let q := calculate_fitness_sum two_dots in
   fitness_sum q = 10 /\
   select_parent (fun _ _ => 3.9) q = Parent (dot_of_fitness 4) /\
   select_parent (fun _ _ => 4.1) q = Parent (dot_of_fitness 6)) /\
  (Forall (fun d => fitness d = 0) (dots p) ->
   fitness_sum (calculate_fitness_sum p) = 0 /\
   (uniform 0 0 = 0 ->
    select_parent uniform (calculate_fitness_sum p) = Int 0)).
Proof.
  intros rand. split; [| split].
  - exact (select_from_first_exceeding rand (dots p) 0).
  - repeat split.
  - intros Z. simpl. rewrite (fold_zero_fitness Z). split; [reflexivity |].
    intros U. unfold select_parent. simpl.
    rewrite (fold_zero_fitness Z), U. exact (select_from_zero_fitness Z).
Qed.

Lemma firstn_length_eq {A : Type} (l : list A) :
  firstn (length l) l = l.
Proof. apply firstn_all. Qed.

(** C10, as the specification states it, fails: a positive [fitness_sum]
    does not keep [select_parent] from its last line, since the generator
    can answer [fitness_sum] itself.  [uniform(a, b)] is
    [a + (b - a) * random()] with [random()] in [0, 1).  For the dot of
    C3, which rests on the centre of the goal, the fitness and the sum are
    infinite and so is the answer for [random() = 0.5]; for a dot whose
    fitness is the least positive float, the product with 0.75 rounds to
    that float.  In both cohorts the sum is positive, no running sum
    exceeds the answer and [select_parent] returns the integer 0. *)
Lemma select_parent_misses_at_the_upper_end :
  let p := calculate_fitness_sum
             (population_of [set_fitness infinity dot_on_goal]) in
  let q := calculate_fitness_sum
             (population_of [dot_of_fitness 0x1p-1074]) in
  calculate_fitness dot_on_goal = Ok (set_fitness infinity dot_on_goal) /\
  (0 <? fitness_sum p) = true /\
  python_uniform 0.5 0 (fitness_sum p) = fitness_sum p /\
  select_parent (python_uniform 0.5) p = Int 0 /\
  (0 <? fitness_sum q) = true /\
  python_uniform 0.75 0 (fitness_sum q) = fitness_sum q /\
  select_parent (python_uniform 0.75) q = Int 0.
Proof.
  repeat split.
Qed.

(** C10, amended.  After [calculate_fitness_sum], when the sum is positive
    and the generator's answer lies strictly below it, [select_parent]
    returns a dot of the population: the running sum ends on the very value
    of [fitness_sum], which exceeds the answer, so the last line is not
    reached.  An answer that is not below the sum is not covered. *)
Theorem select_parent_returns_a_dot (uniform : uniform_source)
  (p : Population) :
  let q := calculate_fitness_sum p in
  (0 <? fitness_sum q) = true ->
  (uniform 0 (fitness_sum q) <? fitness_sum q) = true ->
  exists d, select_parent uniform q = Parent d /\ In d (dots q).
Proof.
  intros q Hpos Hlt. unfold select_parent.
  pose proof (select_from_first_exceeding (uniform 0 (fitness_sum q))
                (dots q) 0) as H.
  destruct (select_from (dots q) 0 (uniform 0 (fitness_sum q))) as [d | z] eqn:E.
  - exists d. split; [reflexivity |]. eapply select_from_In, E.
  - exfalso. destruct H as (_ & Hall).
    subst q. simpl in *.
    destruct (dots p) as [| d ds] eqn:D.
    + simpl in Hpos. vm_compute in Hpos. discriminate.
    + specialize (Hall (length ds)). simpl in Hall.
      rewrite firstn_all in Hall. unfold gtb in Hall.
      simpl in Hlt. rewrite Hall in Hlt; [discriminate | lia].
Qed.

Lemma select_parent_returns_a_dot_witness :
  exists d,
    select_parent (fun _ _ => 3.9)
      (calculate_fitness_sum two_dots)
    = Parent d /\
    In d (dots (calculate_fitness_sum two_dots)).
Proof.
  apply (select_parent_returns_a_dot (fun _ _ => 3.9) two_dots);
    reflexivity.
Defined.

(** ** The next generation *)

Lemma bind_Ok {A B : Type} (r : result A) (k : A -> result B) (b : B) :
  bind r k = Ok b -> exists a, r = Ok a /\ k a = Ok b.
Proof.
  destruct r as [a | e]; simpl; intros H; [eauto | discriminate].
Qed.

Lemma index_Ok {A : Type} (l : list A) (i : nat) (a : A) :
  index l i = Ok a -> nth_error l i = Some a.
Proof.
  unfold index. destruct (nth_error l i); intros H; congruence.
Qed.

Lemma babies_from_parents (self : Population)
  (uniform : nat -> uniform_source) :
  forall (n i : nat) (l : list Dot),
    babies_from self uniform i n = Ok l ->
    length l = n /\
    forall k baby, nth_error l k = Some baby ->
      exists parent,
        select_parent (uniform (i + k)%nat) self = Parent parent /\
        baby = get_baby parent.
Proof.
  induction n as [| n IH]; intros i l; simpl.
  - intros H. injection H as <-. split; [reflexivity |].
    intros [| k] baby Hk; discriminate.
  - intros H.
    apply bind_Ok in H. destruct H as (baby0 & Hb & H).
    apply bind_Ok in H. destruct H as (rest & Hr & H).
    injection H as <-.
    destruct (IH _ _ Hr) as (Hlen & Hrest).
    split; [simpl; congruence |].
    intros [| k] baby Hk; simpl in Hk.
    + injection Hk as <-. rewrite Nat.add_0_r.
      destruct (select_parent (uniform i) self) as [parent | z];
        simpl in Hb; [| discriminate].
      injection Hb as <-. eauto.
    + destruct (Hrest k baby Hk) as (parent & Hsel & Hbaby).
      exists parent. replace (i + S k)%nat with (S i + k)%nat by lia. auto.
Qed.

(** What [natural_selection] does, step by step, when it succeeds. *)
Lemma natural_selection_Ok (uniform : nat -> uniform_source)
  (p p' : Population) :
  natural_selection uniform p = Ok p' ->
  exists best babies,
    nth_error (dots p) (snd (best_from 0 (dots p) 0 0)) = Some best /\
    babies_from
      (calculate_fitness_sum
         {| fitness_sum := fitness_sum p; gen := gen p;
            best_dot := snd (best_from 0 (dots p) 0 0);
            min_step := if reached_goal best then step (brain best)
                        else min_step p;
            dots := dots p |})
      uniform 1 (length (dots p) - 1) = Ok babies /\
    p' = {| fitness_sum := fold_left add_fitness (dots p) 0;
            gen := S (gen p);
            best_dot := snd (best_from 0 (dots p) 0 0);
            min_step := if reached_goal best then step (brain best)
                        else min_step p;
            dots := set_is_best (get_baby best) :: babies |}.
Proof.
  unfold natural_selection, set_best_dot. intros H.
  apply bind_Ok in H. destruct H as (self1 & H1 & H).
  apply bind_Ok in H1. destruct H1 as (best & Hbest & H1).
  injection H1 as <-. simpl in H.
  rewrite Hbest in H. simpl in H.
  apply bind_Ok in H. destruct H as (babies & Hb & H).
  injection H as <-.
  exists best, babies. split; [apply index_Ok, Hbest |]. split; auto.
Qed.

(** C5. Every call of [select_parent] inside [natural_selection] is made on
    a population whose dots are those of the old cohort and whose
    [fitness_sum] is the sum of their fitnesses; the new cohort, its slot 0
    included, has no part in it. *)
Theorem selection_sums_the_old_cohort (uniform : nat -> uniform_source)
  (p p' : Population) :
  natural_selection uniform p = Ok p' ->
  exists q,
    dots q = dots p /\
    fitness_sum q = fold_left add_fitness (dots p) 0 /\
    fitness_sum p' = fitness_sum q /\
    length (dots p') = length (dots p) /\
    forall i baby, (1 <= i)%nat -> nth_error (dots p') i = Some baby ->
      exists parent,
        select_parent (uniform i) q = Parent parent /\
        In parent (dots p) /\
        baby = get_baby parent.
Proof.
  intros H. apply natural_selection_Ok in H.
  destruct H as (best & babies & Hbest & Hb & ->).
  set (q := calculate_fitness_sum _) in Hb.
  destruct (babies_from_parents _ _ _ _ Hb) as (Hlen & Hp).
  exists q. split; [reflexivity |]. split; [reflexivity |].
  split; [reflexivity |]. split.
  - simpl. rewrite Hlen.
    assert (nth_error (dots p) (snd (best_from 0 (dots p) 0 0)) <> None)
      as N by congruence.
    apply nth_error_Some in N. lia.
  - intros [| i] baby Hi Hn; [lia |]. simpl in Hn.
    destruct (Hp i baby Hn) as (parent & Hsel & Hbaby).
    exists parent. simpl in Hsel. repeat split; auto.
    unfold select_parent in Hsel.
    apply select_from_In in Hsel. exact Hsel.
Qed.

Lemma selection_sums_the_old_cohort_witness :
  exists p',
    natural_selection answer_3_9 two_dots = Ok p' /\
    exists q,
      dots q = dots two_dots /\
      fitness_sum q = fold_left add_fitness (dots two_dots) 0 /\
      fitness_sum p' = fitness_sum q /\
      length (dots p') = length (dots two_dots) /\
      forall i baby, (1 <= i)%nat -> nth_error (dots p') i = Some baby ->
        exists parent,
          select_parent (answer_3_9 i) q = Parent parent /\
          In parent (dots two_dots) /\
          baby = get_baby parent.
Proof.
  eexists. split.
  - vm_compute. reflexivity.
  - apply (selection_sums_the_old_cohort answer_3_9 two_dots).
    vm_compute. reflexivity.
Defined.

Lemma mutate_dots_from_nth (uniform : nat -> nat -> uniform_source)
  (gauss : nat -> nat -> vec) :
  forall (ds : list Dot) (i k : nat) (d : Dot),
    nth_error ds k = Some d ->
    nth_error (mutate_dots_from i uniform gauss ds) k
    = Some (set_brain (mutate (uniform (i + k)%nat) (gauss (i + k)%nat)
                         (brain d)) d).
Proof.
  induction ds as [| d0 ds IH]; intros i [| k] d H; simpl in *;
    try discriminate.
  - injection H as <-. now rewrite Nat.add_0_r.
  - rewrite (IH (S i) k d H).
    now replace (i + S k)%nat with (S i + k)%nat by lia.
Qed.

Lemma mutate_dots_from_length (uniform : nat -> nat -> uniform_source)
  (gauss : nat -> nat -> vec) :
  forall (ds : list Dot) (i : nat),
    length (mutate_dots_from i uniform gauss ds) = length ds.
Proof.
  induction ds as [| d0 ds IH]; intros i; simpl; [| rewrite IH];
    reflexivity.
Qed.

(** ** The order of the floats and the choice of the best dot *)

Unset Implicit Arguments.

Lemma SFltb_trans (x y z : spec_float) :
  SFltb x y = true -> SFltb y z = true -> SFltb x z = true.
Proof.
  unfold SFltb, SFcompare.
  destruct x as [[] | [] | | [] mx ex], y as [[] | [] | | [] my ey],
    z as [[] | [] | | [] mz ez];
    try discriminate; try reflexivity;
    change (Pos.compare_cont Eq mx my) with (Pos.compare mx my);
    change (Pos.compare_cont Eq my mz) with (Pos.compare my mz);
    change (Pos.compare_cont Eq mx mz) with (Pos.compare mx mz);
    destruct (Z.compare_spec ex ey), (Z.compare_spec ey ez),
      (Z.compare_spec ex ez);
    try discriminate; try reflexivity; try lia;
    destruct (Pos.compare_spec mx my), (Pos.compare_spec my mz),
      (Pos.compare_spec mx mz);
    cbn [CompOpp]; try discriminate; try reflexivity; lia.
Qed.

Lemma SFltb_irrefl (x : spec_float) : SFltb x x = false.
Proof.
  unfold SFltb, SFcompare.
  destruct x as [[] | [] | | [] mx ex]; try reflexivity;
    change (Pos.compare_cont Eq mx mx) with (Pos.compare mx mx);
    rewrite Z.compare_refl, Pos.compare_refl; reflexivity.
Qed.

Lemma ltb_trans (a b c : float) :
  (a <? b) = true -> (b <? c) = true -> (a <? c) = true.
Proof. rewrite !ltb_spec. apply SFltb_trans. Qed.

Lemma ltb_irrefl (a : float) : (a <? a) = false.
Proof. rewrite ltb_spec. apply SFltb_irrefl. Qed.

(** The loop of [set_best_dot]: the running maximum only grows, no dot
    passed has a greater fitness, and it is the fitness of the dot at the
    running index once a dot has been taken. *)
Lemma best_from_max :
  forall ds i mf mi,
    let r := best_from i ds mf mi in
    ((mf <? fst r) = true \/ fst r = mf) /\
    (forall d, In d ds -> (fst r <? fitness d) = false) /\
    ((fst r = mf /\ snd r = mi) \/
     (exists d, nth_error ds (snd r - i) = Some d /\ (i <= snd r)%nat /\
                fitness d = fst r /\ (mf <? fst r) = true)).
Proof.
  induction ds as [| a ds IH]; intros i mf mi; cbn zeta.
  - cbn [best_from fst snd]. split; [right; reflexivity |].
    split; [intros d [] | left; split; reflexivity].
  - cbn [best_from]. unfold gtb. destruct (mf <? fitness a) eqn:G.
    + destruct (IH (S i) (fitness a) i) as (A & B & C). cbn zeta in A, B, C.
      set (r := best_from (S i) ds (fitness a) i) in *.
      assert ((mf <? fst r) = true) as Up.
      { destruct A as [A | A]; [exact (ltb_trans _ _ _ G A) |].
        rewrite A. exact G. }
      split; [left; exact Up |]. split.
      * intros d [<- | Hd]; [| apply B, Hd].
        destruct A as [A | A]; [| rewrite A; apply ltb_irrefl].
        destruct (fst r <? fitness a) eqn:W; [| reflexivity].
        rewrite <- (ltb_irrefl (fitness a)). symmetry.
        exact (ltb_trans _ _ _ A W).
      * right. destruct C as [[C1 C2] | (d & C1 & C2 & C3 & C4)].
        -- exists a. rewrite C2, Nat.sub_diag.
           split; [reflexivity |]. split; [lia |].
           split; [symmetry; exact C1 | exact Up].
        -- exists d. replace (snd r - i)%nat with (S (snd r - S i)) by lia.
           split; [exact C1 |]. split; [lia |]. split; [exact C3 | exact Up].
    + destruct (IH (S i) mf mi) as (A & B & C). cbn zeta in A, B, C.
      set (r := best_from (S i) ds mf mi) in *.
      split; [exact A |]. split.
      * intros d [<- | Hd]; [| apply B, Hd].
        destruct A as [A | A]; [| rewrite A; exact G].
        destruct (fst r <? fitness a) eqn:W; [| reflexivity].
        rewrite <- G. symmetry. exact (ltb_trans _ _ _ A W).
      * destruct C as [C | (d & C1 & C2 & C3 & C4)]; [left; exact C |].
        right. exists d.
        replace (snd r - i)%nat with (S (snd r - S i)) by lia.
        split; [exact C1 |]. split; [lia |]. split; assumption.
Qed.

(** The dot at the index [set_best_dot] arrives at is one of greatest
    fitness among those of positive fitness. *)
Lemma best_from_chooses_a_maximum (ds : list Dot) (best : Dot) :
  nth_error ds (snd (best_from 0 ds 0 0)) = Some best ->
  forall d, In d ds -> (0 <? fitness d) = true ->
            (fitness best <? fitness d) = false.
Proof.
  intros Hb d Hd P.
  destruct (best_from_max ds 0 0 0) as (_ & B & C). cbn zeta in B, C.
  destruct C as [[C1 C2] | (d' & C1 & _ & C3 & _)].
  - rewrite C1 in B. rewrite (B d Hd) in P. discriminate P.
  - rewrite Nat.sub_0_r in C1. rewrite Hb in C1. injection C1 as <-.
    rewrite C3. apply B, Hd.
Qed.

Set Implicit Arguments.

(** C6. After [natural_selection] the dot in slot 0 carries the directions
    of the dot [set_best_dot] chose in the old cohort, entry for entry, and
    that dot is one of greatest fitness: no dot of positive fitness of the
    old cohort is rated above it.  [mutate_babies] returns a cohort with
    the same dot in slot 0: it mutates the brains of the dots in the slots
    from 1 on and of no other. *)
Theorem elite_keeps_the_best_directions (uniform : nat -> uniform_source)
  (p p' : Population) :
  natural_selection uniform p = Ok p' ->
  exists best d0 rest,
    best_dot p' = snd (best_from 0 (dots p) 0 0) /\
    nth_error (dots p) (best_dot p') = Some best /\
    (forall d, In d (dots p) -> (0 <? fitness d) = true ->
               (fitness best <? fitness d) = false) /\
    dots p' = d0 :: rest /\
    directions (brain d0) = directions (brain best) /\
    forall um gm,
      exists rest',
        dots (mutate_babies um gm p') = d0 :: rest' /\
        length rest' = length rest /\
        forall i d, nth_error rest i = Some d ->
          nth_error rest' i
          = Some (set_brain (mutate (um (S i)) (gm (S i)) (brain d)) d).
Proof.
  intros H. apply natural_selection_Ok in H.
  destruct H as (best & babies & Hbest & _ & ->).
  exists best, (set_is_best (get_baby best)), babies. simpl.
  split; [reflexivity |]. split; [exact Hbest |].
  split; [exact (best_from_chooses_a_maximum (dots p) best Hbest) |].
  split; [reflexivity |]. split; [reflexivity |].
  intros um gm. exists (mutate_dots_from 1 um gm babies).
  unfold mutate_babies. simpl. split; [reflexivity |].
  split; [apply mutate_dots_from_length |].
  intros i d Hd. exact (mutate_dots_from_nth um gm babies 1 i Hd).
Qed.

Lemma elite_keeps_the_best_directions_witness :
  exists p',
    natural_selection answer_3_9 two_dots = Ok p' /\
    best_dot p' = 1%nat /\
    exists best d0 rest,
      best_dot p' = snd (best_from 0 (dots two_dots) 0 0) /\
      nth_error (dots two_dots) (best_dot p') = Some best /\
      (forall d, In d (dots two_dots) -> (0 <? fitness d) = true ->
                 (fitness best <? fitness d) = false) /\
      dots p' = d0 :: rest /\
      directions (brain d0) = directions (brain best) /\
      forall um gm,
        exists rest',
          dots (mutate_babies um gm p') = d0 :: rest' /\
          length rest' = length rest /\
          forall i d, nth_error rest i = Some d ->
            nth_error rest' i
            = Some (set_brain (mutate (um (S i)) (gm (S i)) (brain d)) d).
Proof.
  eexists. split.
  - vm_compute. reflexivity.
  - split; [reflexivity |].
    apply (elite_keeps_the_best_directions answer_3_9 two_dots).
    vm_compute. reflexivity.
Defined.


(* ================================================================= *)
(** * Binary64 arithmetic

    What follows is proved from the specification of the primitive floats
    by their bit-level model. *)

Unset Implicit Arguments.

Section Binary64.

Local Open Scope Z_scope.


Lemma fexp_eq e : fexp prec emax e = Z.max (e - 53) (-1074).
Proof. reflexivity. Qed.

Lemma digits_xO m : digits (m~0) = digits m + 1.
Proof. unfold digits. simpl. lia. Qed.

Lemma digits_xI m : digits (m~1) = digits m + 1.
Proof. unfold digits. simpl. lia. Qed.

Lemma digits_pos m : 1 <= digits m.
Proof. unfold digits. lia. Qed.

Lemma digits_bounds m : 2 ^ (digits m - 1) <= Zpos m < 2 ^ digits m.
Proof.
  induction m as [m IH | m IH |].
  - rewrite digits_xI. pose proof (digits_pos m).
    replace (digits m + 1 - 1) with (digits m - 1 + 1) by lia.
    rewrite !Z.pow_add_r by lia. change (2 ^ 1) with 2. lia.
  - rewrite digits_xO. pose proof (digits_pos m).
    replace (digits m + 1 - 1) with (digits m - 1 + 1) by lia.
    rewrite !Z.pow_add_r by lia. change (2 ^ 1) with 2. lia.
  - cbn. lia.
Qed.

Lemma Zdigits2_pos m : Zdigits2 (Zpos m) = digits m.
Proof. reflexivity. Qed.

Lemma digits_ge k m : 0 <= k -> 2 ^ k <= Zpos m -> k + 1 <= digits m.
Proof.
  intros Hk H. destruct (Z_lt_le_dec (digits m) (k + 1)) as [L | L]; [| lia].
  exfalso. pose proof (digits_bounds m) as [_ U].
  assert (2 ^ digits m <= 2 ^ k) by (apply Z.pow_le_mono_r; lia). lia.
Qed.

Lemma digits_le k m : 0 <= k -> Zpos m < 2 ^ k -> digits m <= k.
Proof.
  intros Hk H. destruct (Z_lt_le_dec k (digits m)) as [L | L]; [| lia].
  exfalso. pose proof (digits_bounds m) as [U _].
  assert (2 ^ k <= 2 ^ (digits m - 1)) by (apply Z.pow_le_mono_r; lia). lia.
Qed.

Lemma digits_unique k m : 2 ^ (k - 1) <= Zpos m < 2 ^ k -> digits m = k.
Proof.
  intros [L U].
  assert (0 < k) as Hk.
  { destruct (Z_lt_le_dec 0 k) as [| N]; auto. exfalso.
    destruct (Z.eq_dec k 0) as [-> | N0]; [simpl in U; lia |].
    rewrite Z.pow_neg_r in U by lia. lia. }
  pose proof (digits_ge (k - 1) m ltac:(lia) L).
  pose proof (digits_le k m ltac:(lia) U). lia.
Qed.

(** Shifts to the right. *)

Lemma shr_1_m mrs : 0 <= shr_m mrs -> shr_m (shr_1 mrs) = shr_m mrs / 2.
Proof.
  destruct mrs as [m r s]. cbn [shr_m]. intros H.
  destruct m as [| [p | p |] | p]; cbn [shr_1 shr_m]; try lia.
  - reflexivity.
  - apply Z.div_unique with 1; lia.
  - apply Z.div_unique with 0; lia.
  - reflexivity.
Qed.

Lemma iter_shr_1_m p :
  forall mrs, 0 <= shr_m mrs ->
    shr_m (SpecFloat.iter_pos shr_1 p mrs) = shr_m mrs / 2 ^ Zpos p.
Proof.
  induction p as [p IH | p IH |]; intros mrs H; cbn [SpecFloat.iter_pos].
  - assert (0 <= shr_m (shr_1 mrs)) as H1
        by (rewrite shr_1_m by auto; apply Z.div_pos; lia).
    assert (0 <= shr_m (SpecFloat.iter_pos shr_1 p (shr_1 mrs))) as H2
        by (rewrite IH by auto; apply Z.div_pos; lia).
    rewrite IH, IH, shr_1_m by auto.
    rewrite !Z.div_div by lia. f_equal.
    replace (Z.pos p~1) with (1 + Z.pos p + Z.pos p) by lia.
    rewrite !Z.pow_add_r by lia. change (2 ^ 1) with 2. lia.
  - assert (0 <= shr_m (SpecFloat.iter_pos shr_1 p mrs)) as H2
        by (rewrite IH by auto; apply Z.div_pos; lia).
    rewrite IH, IH by auto.
    rewrite !Z.div_div by lia. f_equal.
    replace (Z.pos p~0) with (Z.pos p + Z.pos p) by lia.
    rewrite !Z.pow_add_r by lia. lia.
  - rewrite shr_1_m by auto. reflexivity.
Qed.

Lemma shr_spec mrs e n :
  0 <= shr_m mrs ->
  shr_m (fst (shr mrs e n)) = shr_m mrs / 2 ^ Z.max n 0 /\
  snd (shr mrs e n) = e + Z.max n 0.
Proof.
  intros H. destruct n as [| p | p]; simpl.
  - rewrite Z.div_1_r. lia.
  - rewrite iter_shr_1_m by auto. split; [reflexivity | lia].
  - rewrite Z.div_1_r. lia.
Qed.

Lemma shr_m_of_loc m l : shr_m (shr_record_of_loc m l) = m.
Proof. destruct l as [| []]; reflexivity. Qed.

Lemma Zdigits2_unique k m :
  0 < m -> 2 ^ (k - 1) <= m < 2 ^ k -> Zdigits2 m = k.
Proof.
  destruct m as [| p | p]; try lia. intros _. apply digits_unique.
Qed.

Lemma Zdigits2_bounds m :
  0 < m -> 2 ^ (Zdigits2 m - 1) <= m < 2 ^ Zdigits2 m.
Proof.
  destruct m as [| p | p]; try lia. intros _. apply digits_bounds.
Qed.

Lemma Zdigits2_ge1 m : 0 < m -> 1 <= Zdigits2 m.
Proof. destruct m as [| p | p]; try lia. intros _. apply digits_pos. Qed.

Lemma Zdigits2_mono a b : 0 < a -> a <= b -> Zdigits2 a <= Zdigits2 b.
Proof.
  intros Ha Hab.
  pose proof (Zdigits2_bounds a Ha) as [La _].
  pose proof (Zdigits2_bounds b ltac:(lia)) as [_ Ub].
  pose proof (Zdigits2_ge1 a Ha). pose proof (Zdigits2_ge1 b ltac:(lia)).
  destruct (Z_lt_le_dec (Zdigits2 b) (Zdigits2 a)) as [L | L]; [| lia].
  exfalso.
  assert (2 ^ Zdigits2 b <= 2 ^ (Zdigits2 a - 1))
    by (apply Z.pow_le_mono_r; lia). lia.
Qed.

Lemma Zdigits2_succ a : 0 < a -> Zdigits2 (a + 1) <= Zdigits2 a + 1.
Proof.
  intros Ha.
  pose proof (Zdigits2_bounds a Ha) as [_ Ua].
  pose proof (Zdigits2_bounds (a + 1) ltac:(lia)) as [Lb _].
  pose proof (Zdigits2_ge1 a Ha).
  destruct (Z_lt_le_dec (Zdigits2 a + 1) (Zdigits2 (a + 1))) as [L | L];
    [| lia].
  exfalso.
  assert (2 ^ (Zdigits2 a + 1) <= 2 ^ (Zdigits2 (a + 1) - 1))
    by (apply Z.pow_le_mono_r; lia).
  rewrite Z.pow_add_r in H0 by lia. lia.
Qed.

(** Division of a mantissa by a power of two that leaves digits. *)
Lemma Zdigits2_div_pow2 m n :
  0 < m -> 0 <= n < Zdigits2 m ->
  0 < m / 2 ^ n /\ Zdigits2 (m / 2 ^ n) = Zdigits2 m - n.
Proof.
  intros Hm Hn.
  pose proof (Zdigits2_bounds m Hm) as [L U].
  assert (0 < 2 ^ n) as P by (apply Z.pow_pos_nonneg; lia).
  assert (2 ^ (Zdigits2 m - n - 1) <= m / 2 ^ n) as L'.
  { apply Z.div_le_lower_bound; auto.
    rewrite <- Z.pow_add_r by lia.
    replace (n + (Zdigits2 m - n - 1)) with (Zdigits2 m - 1) by lia. auto. }
  assert (m / 2 ^ n < 2 ^ (Zdigits2 m - n)) as U'.
  { apply Z.div_lt_upper_bound; auto.
    rewrite <- Z.pow_add_r by lia.
    replace (n + (Zdigits2 m - n)) with (Zdigits2 m) by lia. auto. }
  assert (0 < 2 ^ (Zdigits2 m - n - 1)) by (apply Z.pow_pos_nonneg; lia).
  split; [lia |].
  apply Zdigits2_unique; [lia |]. split; auto.
Qed.

Lemma Zdigits2_mul_pow2 m n :
  0 < m -> 0 <= n -> Zdigits2 (m * 2 ^ n) = Zdigits2 m + n.
Proof.
  intros Hm Hn.
  pose proof (Zdigits2_bounds m Hm) as [L U].
  pose proof (Zdigits2_ge1 m Hm).
  assert (0 < 2 ^ n) as P by (apply Z.pow_pos_nonneg; lia).
  apply Zdigits2_unique; [nia |].
  replace (Zdigits2 m + n - 1) with (Zdigits2 m - 1 + n) by lia.
  rewrite !Z.pow_add_r by lia. nia.
Qed.

(** Rounding to binary64. *)

Lemma shr_fexp_spec m e l :
  0 <= m ->
  let n := Z.max (Zdigits2 m + e - 53) (-1074) - e in
  shr_m (fst (shr_fexp prec emax m e l)) = m / 2 ^ Z.max n 0 /\
  snd (shr_fexp prec emax m e l) = e + Z.max n 0.
Proof.
  intros Hm n. unfold shr_fexp.
  pose proof (shr_spec (shr_record_of_loc m l) e
                (fexp prec emax (Zdigits2 m + e) - e)) as H.
  rewrite shr_m_of_loc in H. specialize (H Hm).
  rewrite fexp_eq in H. exact H.
Qed.

Lemma shr_fexp_keeps_mag m e l :
  0 < m -> -1074 < Zdigits2 m + e ->
  let r := shr_fexp prec emax m e l in
  0 < shr_m (fst r) /\
  Zdigits2 (shr_m (fst r)) + snd r = Zdigits2 m + e /\
  snd r = Z.max e (Z.max (Zdigits2 m + e - 53) (-1074)).
Proof.
  intros Hm HD r. subst r.
  destruct (shr_fexp_spec m e l ltac:(lia)) as [Hs He].
  rewrite Hs, He. clear Hs He.
  pose proof (Zdigits2_ge1 m Hm).
  set (n := Z.max (Zdigits2 m + e - 53) (-1074) - e).
  destruct (Z_le_gt_dec n 0) as [N | N].
  - rewrite Z.max_r by lia. change (2 ^ 0) with 1. rewrite Z.div_1_r.
    repeat split; lia.
  - rewrite Z.max_l by lia.
    destruct (Zdigits2_div_pow2 m n Hm ltac:(lia)) as [P E].
    rewrite E. repeat split; lia.
Qed.

Lemma shr_fexp_underflow m e l :
  0 <= m -> (0 < m -> Zdigits2 m + e <= -1074) ->
  let r := shr_fexp prec emax m e l in
  shr_m (fst r) = 0 /\ snd r = Z.max e (-1074).
Proof.
  intros Hm HD r. subst r.
  destruct (shr_fexp_spec m e l Hm) as [Hs He].
  rewrite Hs, He. clear Hs He.
  destruct (Z.eq_dec m 0) as [-> | N].
  - rewrite Z.div_0_l by (apply Z.pow_nonzero; lia).
    split; [reflexivity |]. cbn [Zdigits2]. lia.
  - specialize (HD ltac:(lia)).
    pose proof (Zdigits2_ge1 m ltac:(lia)).
    pose proof (Zdigits2_bounds m ltac:(lia)) as [_ U].
    rewrite (Z.max_r _ (-1074)) by lia.
    rewrite Z.max_l by lia. split; [| lia].
    apply Z.div_small. split; [lia |].
    assert (2 ^ Zdigits2 m <= 2 ^ (-1074 - e))
      by (apply Z.pow_le_mono_r; lia). lia.
Qed.

Lemma round_nearest_even_bounds m l :
  m <= round_nearest_even m l <= m + 1.
Proof.
  destruct l as [| []]; simpl; try lia.
  destruct (Z.even m); lia.
Qed.

Lemma binary_round_aux_lower s m e l k :
  0 < m -> -1074 < k -> k <= Zdigits2 m + e ->
  match binary_round_aux prec emax s m e l with
  | S754_finite s' m' e' => s' = s /\ k <= digits m' + e'
  | S754_infinity s' => s' = s
  | _ => False
  end.
Proof.
  intros Hm Hk HD. unfold binary_round_aux.
  pose proof (shr_fexp_keeps_mag m e l Hm ltac:(lia)) as H1.
  destruct (shr_fexp prec emax m e l) as [mrs1 e1]. simpl in H1.
  destruct H1 as (P1 & M1 & _).
  pose proof (round_nearest_even_bounds (shr_m mrs1)
                (loc_of_shr_record mrs1)) as B.
  set (m2 := round_nearest_even (shr_m mrs1) (loc_of_shr_record mrs1)) in *.
  pose proof (Zdigits2_mono (shr_m mrs1) m2 P1 ltac:(lia)) as Mo.
  pose proof (shr_fexp_keeps_mag m2 e1 loc_Exact ltac:(lia) ltac:(lia)) as H3.
  destruct (shr_fexp prec emax m2 e1 loc_Exact) as [mrs3 e3]. simpl in H3.
  destruct H3 as (P3 & M3 & _).
  destruct (shr_m mrs3) as [| m' | m'] eqn:E; try lia.
  destruct (e3 <=? emax - prec); [| reflexivity].
  split; [reflexivity |]. change (digits m') with (Zdigits2 (Z.pos m')). lia.
Qed.

Lemma binary_round_aux_upper s m e l k :
  0 <= m -> (0 < m -> Zdigits2 m + e <= k) -> e <= k ->
  -1074 <= k -> k <= 971 ->
  match binary_round_aux prec emax s m e l with
  | S754_zero _ => True
  | S754_finite _ m' e' => digits m' + e' <= k + 1
  | _ => False
  end.
Proof.
  intros Hm HD He Hk Hk'. unfold binary_round_aux.
  assert (forall m2 e1, 0 <= m2 -> (0 < m2 -> Zdigits2 m2 + e1 <= k + 1) ->
            -1074 <= e1 <= k -> (m2 = 0 \/ m2 = 1 \/ -1074 < Zdigits2 m2 + e1) ->
            match
              (let '(mrs'', e'') := shr_fexp prec emax m2 e1 loc_Exact in
               match shr_m mrs'' with
               | 0 => S754_zero s
               | Z.pos m0 =>
                   if e'' <=? emax - prec
                   then S754_finite s m0 e''
                   else S754_infinity s
               | Z.neg _ => S754_nan
               end)
            with
            | S754_zero _ => True
            | S754_finite _ m' e' => digits m' + e' <= k + 1
            | _ => False
            end) as Second.
  { intros m2 e1 P2 D2 E1 C.
    destruct (Z.eq_dec m2 0) as [-> | N0].
    - pose proof (shr_fexp_underflow 0 e1 loc_Exact ltac:(lia) ltac:(lia)) as U.
      destruct (shr_fexp prec emax 0 e1 loc_Exact) as [mrs3 e3]. simpl in U.
      destruct U as [-> _]. exact I.
    - specialize (D2 ltac:(lia)).
      assert (-1074 < Zdigits2 m2 + e1) as C'.
      { destruct C as [C | [-> | C]]; [lia | change (Zdigits2 1) with 1; lia | exact C]. }
      pose proof (shr_fexp_keeps_mag m2 e1 loc_Exact ltac:(lia) C') as H3.
      destruct (shr_fexp prec emax m2 e1 loc_Exact) as [mrs3 e3]. simpl in H3.
      destruct H3 as (P3 & M3 & E3).
      destruct (shr_m mrs3) as [| m' | m'] eqn:E; try lia.
      destruct (Z.leb_spec e3 (emax - prec)) as [L | L].
      + change (digits m') with (Zdigits2 (Z.pos m')). lia.
      + change (emax - prec) with 971 in L. lia. }
  destruct (Z_lt_le_dec 0 m) as [Pm | Zm];
    [destruct (Z_lt_le_dec (-1074) (Zdigits2 m + e)) as [Big | Small] |].
  - pose proof (shr_fexp_keeps_mag m e l Pm Big) as H1.
    destruct (shr_fexp prec emax m e l) as [mrs1 e1]. simpl in H1.
    destruct H1 as (P1 & M1 & E1).
    pose proof (round_nearest_even_bounds (shr_m mrs1)
                  (loc_of_shr_record mrs1)) as B.
    set (m2 := round_nearest_even (shr_m mrs1) (loc_of_shr_record mrs1)) in *.
    pose proof (Zdigits2_mono (shr_m mrs1) m2 P1 ltac:(lia)) as Mo.
    pose proof (Zdigits2_mono m2 (shr_m mrs1 + 1) ltac:(lia) ltac:(lia)) as Mo'.
    pose proof (Zdigits2_succ (shr_m mrs1) P1) as Su.
    pose proof (Zdigits2_ge1 m Pm).
    specialize (HD Pm).
    apply Second; lia.
  - pose proof (shr_fexp_underflow m e l ltac:(lia) ltac:(lia)) as H1.
    destruct (shr_fexp prec emax m e l) as [mrs1 e1]. simpl in H1.
    destruct H1 as (Z1 & E1). rewrite Z1.
    pose proof (round_nearest_even_bounds 0 (loc_of_shr_record mrs1)) as B.
    set (m2 := round_nearest_even 0 (loc_of_shr_record mrs1)) in *.
    apply Second; try lia.
    intros P2. replace m2 with 1 by lia. change (Zdigits2 1) with 1. lia.
  - pose proof (shr_fexp_underflow m e l ltac:(lia) ltac:(lia)) as H1.
    destruct (shr_fexp prec emax m e l) as [mrs1 e1]. simpl in H1.
    destruct H1 as (Z1 & E1). rewrite Z1.
    pose proof (round_nearest_even_bounds 0 (loc_of_shr_record mrs1)) as B.
    set (m2 := round_nearest_even 0 (loc_of_shr_record mrs1)) in *.
    apply Second; try lia.
    intros P2. replace m2 with 1 by lia. change (Zdigits2 1) with 1. lia.
Qed.

(** Alignment to a smaller exponent. *)

Lemma iter_xO m d : Zpos (Pos.iter xO m d) = Zpos m * 2 ^ Zpos d.
Proof.
  induction d as [| d IH] using Pos.peano_ind.
  - simpl. lia.
  - rewrite Pos.iter_succ, Pos2Z.inj_xO, IH, Pos2Z.inj_succ.
    rewrite Z.pow_succ_r by lia. lia.
Qed.

Lemma shl_align_spec mx ex t :
  Zpos (fst (shl_align mx ex t)) = Zpos mx * 2 ^ (ex - Z.min ex t) /\
  snd (shl_align mx ex t) = Z.min ex t.
Proof.
  unfold shl_align. destruct (t - ex) as [| d | d] eqn:E; cbn [fst snd].
  - rewrite Z.min_l by lia. rewrite Z.sub_diag. change (2 ^ 0) with 1. lia.
  - rewrite Z.min_l by lia. rewrite Z.sub_diag. change (2 ^ 0) with 1. lia.
  - pose proof (Pos2Z.opp_neg d) as N.
    rewrite Z.min_r by lia. rewrite iter_xO.
    replace (ex - t) with (Zpos d) by lia. lia.
Qed.

Lemma binary_round_lower s m e k :
  -1074 < k -> k <= digits m + e ->
  match binary_round prec emax s m e with
  | S754_finite s' m' e' => s' = s /\ k <= digits m' + e'
  | S754_infinity s' => s' = s
  | _ => False
  end.
Proof.
  intros Hk HD. unfold binary_round.
  pose proof (shl_align_spec m e (fexp prec emax (Z.pos (digits2_pos m) + e)))
    as [Hm He].
  destruct (shl_align m e (fexp prec emax (Z.pos (digits2_pos m) + e)))
    as [mz ez]. cbn [fst snd] in Hm, He.
  assert (Zdigits2 (Z.pos mz) = digits m + (e - ez)) as D.
  { rewrite Hm, Zdigits2_mul_pow2 by lia. rewrite He. reflexivity. }
  apply binary_round_aux_lower; lia.
Qed.


Lemma binary_normalize_lower v e k :
  v <> 0 -> -1074 < k -> k <= Zdigits2 v + e ->
  match binary_normalize prec emax v e false with
  | S754_finite s' m' e' => s' = sign_of v /\ k <= digits m' + e'
  | S754_infinity s' => s' = sign_of v
  | _ => False
  end.
Proof.
  intros Hv Hk HD. destruct v as [| p | p]; [lia | |].
  - exact (binary_round_lower false p e k Hk HD).
  - exact (binary_round_lower true p e k Hk HD).
Qed.

(** Classes of values. *)





Lemma posbig_big k x : posbig k x -> big k x.
Proof. destruct x as [s | s | | s m e]; try destruct s; simpl; tauto. Qed.

Lemma binary_round_aux_sign s m e l :
  match binary_round_aux prec emax s m e l with
  | S754_zero s' => s' = s
  | S754_infinity s' => s' = s
  | S754_finite s' _ _ => s' = s
  | S754_nan => True
  end.
Proof.
  unfold binary_round_aux.
  destruct (shr_fexp prec emax m e l) as [mrs1 e1].
  destruct (shr_fexp prec emax _ e1 loc_Exact) as [mrs3 e3].
  destruct (shr_m mrs3); auto.
  destruct (e3 <=? emax - prec); auto.
Qed.

(** Squares. *)

Lemma digits_mul m1 m2 : digits m1 + digits m2 - 1 <= digits (m1 * m2).
Proof.
  pose proof (digits_bounds m1) as [L1 _].
  pose proof (digits_bounds m2) as [L2 _].
  pose proof (digits_pos m1). pose proof (digits_pos m2).
  assert (2 ^ (digits m1 - 1 + (digits m2 - 1)) <= Zpos (m1 * m2)).
  { rewrite Z.pow_add_r by lia. rewrite Pos2Z.inj_mul.
    assert (0 < 2 ^ (digits m1 - 1)) by (apply Z.pow_pos_nonneg; lia).
    assert (0 < 2 ^ (digits m2 - 1)) by (apply Z.pow_pos_nonneg; lia).
    nia. }
  pose proof (digits_ge (digits m1 - 1 + (digits m2 - 1)) (m1 * m2)
                ltac:(lia) H1). lia.
Qed.

Lemma square_big a x :
  -1074 < 2 * a - 1 -> big a x -> posbig (2 * a - 1) (SF64mul x x).
Proof.
  intros Ha H. destruct x as [s | s | | s m e]; cbn [big posbig nonneg] in H; try contradiction.
  - destruct s; exact I.
  - unfold SF64mul, SFmul.
    replace (xorb s s) with false by (destruct s; reflexivity).
    pose proof (binary_round_aux_lower false (Zpos (m * m)) (e + e) loc_Exact
                  (2 * a - 1) ltac:(lia) Ha) as R.
    pose proof (digits_mul m m) as M.
    change (Zdigits2 (Z.pos (m * m))) with (digits (m * m)) in R.
    specialize (R ltac:(lia)).
    destruct (binary_round_aux prec emax false (Z.pos (m * m)) (e + e)
                loc_Exact) as [| s' | | s' m' e']; try contradiction.
    + subst s'. exact I.
    + destruct R as [-> R]. exact R.
Qed.

Lemma square_nonneg x : nonneg (SF64mul x x).
Proof.
  destruct x as [s | s | | s m e]; simpl; auto.
  - destruct s; reflexivity.
  - replace (xorb s s) with false by (destruct s; reflexivity).
    pose proof (binary_round_aux_sign false (Zpos (m * m)) (e + e) loc_Exact)
      as R.
    destruct (binary_round_aux prec emax false (Z.pos (m * m)) (e + e)
                loc_Exact); simpl; auto.
Qed.

Lemma square_nan_or_posbig a x :
  -1074 < 2 * a - 1 ->
  nan_or_posbig a x -> nan_or_posbig (2 * a - 1) (SF64mul x x).
Proof.
  intros Ha [-> | H].
  - left. reflexivity.
  - right. apply square_big; auto. apply posbig_big, H.
Qed.

(** Sums. *)

Lemma add_finite_posbig k mx ex my ey :
  -1074 < k -> (k <= digits mx + ex \/ k <= digits my + ey) ->
  posbig k (SF64add (S754_finite false mx ex) (S754_finite false my ey)).
Proof.
  intros Hk H. unfold SF64add, SFadd. cbn [cond_Zopp].
  set (ez := Z.min ex ey).
  destruct (shl_align_spec mx ex ez) as [Hx _].
  destruct (shl_align_spec my ey ez) as [Hy _].
  rewrite (Z.min_r ex ez) in Hx by lia.
  rewrite (Z.min_r ey ez) in Hy by lia.
  set (vx := Zpos (fst (shl_align mx ex ez))) in *.
  set (vy := Zpos (fst (shl_align my ey ez))) in *.
  assert (0 < vx) by (subst vx; lia).
  assert (0 < vy) by (subst vy; lia).
  pose proof (Zdigits2_mono vx (vx + vy) ltac:(lia) ltac:(lia)) as Mx.
  pose proof (Zdigits2_mono vy (vx + vy) ltac:(lia) ltac:(lia)) as My.
  assert (Zdigits2 vx = digits mx + (ex - ez)) as Dx
    by (rewrite Hx, Zdigits2_mul_pow2 by lia; reflexivity).
  assert (Zdigits2 vy = digits my + (ey - ez)) as Dy
    by (rewrite Hy, Zdigits2_mul_pow2 by lia; reflexivity).
  pose proof (binary_normalize_lower (vx + vy) ez k ltac:(lia) Hk
                ltac:(lia)) as R.
  replace (sign_of (vx + vy)) with false in R
    by (unfold sign_of; symmetry; apply Z.ltb_ge; lia).
  destruct (binary_normalize prec emax (vx + vy) ez false)
    as [| s' | | s' m' e']; try contradiction.
  - subst s'. exact I.
  - destruct R as [-> R]. exact R.
Qed.

Lemma add_posbig_nonneg k x y :
  -1074 < k -> posbig k x -> nonneg y -> nan_or_posbig k (SF64add x y).
Proof.
  intros Hk Hx Hy.
  destruct x as [| [] | | [] mx ex]; cbn [big posbig nonneg] in Hx; try contradiction;
    destruct y as [sy | sy | | sy my ey]; cbn [big posbig nonneg] in Hy; subst;
    try (left; reflexivity); try (right; exact I); try (right; exact Hx).
  right. apply add_finite_posbig; auto.
Qed.

Lemma add_nonneg_posbig k x y :
  -1074 < k -> nonneg x -> posbig k y -> nan_or_posbig k (SF64add x y).
Proof.
  intros Hk Hx Hy.
  destruct y as [| [] | | [] my ey]; cbn [big posbig nonneg] in Hy; try contradiction;
    destruct x as [sx | sx | | sx mx ex]; cbn [big posbig nonneg] in Hx; subst;
    try (left; reflexivity); try (right; exact I); try (right; exact Hy).
  right. apply add_finite_posbig; auto.
Qed.

(** Square roots. *)

Lemma sqrt_finite_posbig j m e :
  -1074 < j -> 2 * j - 1 <= digits m + e ->
  posbig j (SF64sqrt (S754_finite false m e)).
Proof.
  intros Hj HD. unfold SF64sqrt, SFsqrt, SFsqrt_core_binary.
  rewrite fexp_eq, !Z.div2_div.
  change (Zdigits2 (Z.pos m)) with (digits m).
  pose proof (digits_bounds m) as [Lm _]. pose proof (digits_pos m) as Pm.
  set (d := digits m) in *. clearbody d.
  set (j0 := (d + e + 1) / 2).
  set (e' := Z.min (Z.max (j0 - 53) (-1074)) (e / 2)).
  set (s := e - 2 * e').
  assert (2 * j0 <= d + e + 1 <= 2 * j0 + 1) as Ej.
  { pose proof (Z.div_mod (d + e + 1) 2 ltac:(lia)) as E1.
    pose proof (Z.mod_pos_bound (d + e + 1) 2 ltac:(lia)) as B1.
    fold j0 in E1. clearbody j0. lia. }
  assert (2 * (e / 2) <= e) as Ee.
  { pose proof (Z.div_mod e 2 ltac:(lia)) as E1.
    pose proof (Z.mod_pos_bound e 2 ltac:(lia)) as B1.
    set (h := e / 2) in *. clearbody h. lia. }
  assert (e' <= e / 2) as He1 by (subst e'; apply Z.le_min_r).
  assert (e' <= Z.max (j0 - 53) (-1074)) as He2
    by (subst e'; apply Z.le_min_l).
  assert (s = e - 2 * e') as Es by reflexivity.
  clearbody s e' j0.
  assert (0 <= s) as Hs by (clear - Ee He1 Es; lia).
  set (m' := match s with
             | 0 => Z.pos m
             | Z.pos _ => Z.shiftl (Z.pos m) s
             | Z.neg _ => 0
             end).
  assert (m' = Zpos m * 2 ^ s) as Hm'.
  { subst m'. destruct s as [| p | p].
    - rewrite Z.pow_0_r, Z.mul_1_r. reflexivity.
    - apply Z.shiftl_mul_pow2. exact Hs.
    - exfalso. clear - Hs. lia. }
  assert (0 < 2 ^ s) as P2s by (apply Z.pow_pos_nonneg; lia).
  assert (1 <= j0 - e') as Ht by (clear - He2 Ej HD Hj; lia).
  assert (2 ^ (2 * (j0 - e' - 1)) <= m') as Low.
  { rewrite Hm'.
    apply Z.le_trans with (2 ^ (d - 1 + s)).
    - apply Z.pow_le_mono_r; lia.
    - rewrite Z.pow_add_r by lia. nia. }
  pose proof (Z.sqrtrem_spec m' ltac:(lia)) as Sq.
  destruct (Z.sqrtrem m') as [q r]. destruct Sq as [Eq Br].
  assert (2 ^ (j0 - e' - 1) <= q) as Lq.
  { destruct (Z_lt_le_dec q (2 ^ (j0 - e' - 1))) as [C | C]; [| exact C].
    exfalso.
    replace (2 * (j0 - e' - 1)) with ((j0 - e' - 1) + (j0 - e' - 1)) in Low
      by lia.
    rewrite Z.pow_add_r in Low by lia. nia. }
  assert (0 < 2 ^ (j0 - e' - 1)) by (apply Z.pow_pos_nonneg; lia).
  assert (j0 - e' <= Zdigits2 q) as Dq.
  { destruct q as [| q | q]; try lia.
    pose proof (digits_ge (j0 - e' - 1) q ltac:(lia) Lq).
    change (Zdigits2 (Z.pos q)) with (digits q). lia. }
  pose proof (binary_round_aux_lower false q e'
                (if r =? 0 then loc_Exact
                 else loc_Inexact (if r <=? q then Lt else Gt))
                j ltac:(lia) Hj ltac:(lia)) as R.
  destruct (binary_round_aux prec emax false q e' _)
    as [| s' | | s' m1 e1]; try contradiction.
  - subst s'. exact I.
  - destruct R as [-> R]. exact R.
Qed.

Lemma sqrt_nan_or_posbig j x :
  -1074 < j ->
  nan_or_posbig (2 * j - 1) x -> nan_or_posbig j (SF64sqrt x).
Proof.
  intros Hj [-> | H].
  - left. reflexivity.
  - right. destruct x as [s | [] | | [] m e]; cbn [posbig] in H;
      try contradiction.
    + exact I.
    + apply sqrt_finite_posbig; auto.
Qed.

(** The quotient 1 / x for a large x. *)


Lemma div_one_finite_small m e :
  7 <= digits m + e ->
  small (SF64div (S754_finite false 4503599627370496 (-52))
           (S754_finite false m e)).
Proof.
  intros HD. unfold SF64div, SFdiv, SFdiv_core_binary.
  rewrite fexp_eq.
  change (Zdigits2 (Z.pos 4503599627370496)) with 53.
  change (Zdigits2 (Z.pos m)) with (digits m).
  pose proof (digits_bounds m) as [Lm _]. pose proof (digits_pos m) as Pm.
  set (d := digits m) in *. clearbody d.
  set (e' := Z.min (Z.max (53 + -52 - (d + e) - 53) (-1074)) (-52 - e)).
  assert (e' <= -52 - e) as He1 by (subst e'; apply Z.le_min_r).
  assert (e' <= Z.max (53 + -52 - (d + e) - 53) (-1074)) as He2
    by (subst e'; apply Z.le_min_l).
  set (s := -52 - e - e').
  assert (s = -52 - e - e') as Es by reflexivity.
  clearbody s e'.
  assert (0 <= s) as Hs by (clear - He1 Es; lia).
  set (m' := match s with
             | 0 => Z.pos 4503599627370496
             | Z.pos _ => Z.shiftl (Z.pos 4503599627370496) s
             | Z.neg _ => 0
             end).
  assert (m' = 2 ^ 52 * 2 ^ s) as Hm'.
  { subst m'. destruct s as [| p | p].
    - reflexivity.
    - rewrite Z.shiftl_mul_pow2 by exact Hs. reflexivity.
    - exfalso. clear - Hs. lia. }
  clearbody m'.
  pose proof (Z_div_mod m' (Z.pos m) ltac:(lia)) as DM.
  destruct (Z.div_eucl m' (Z.pos m)) as [q r]. destruct DM as [Eq Br].
  assert (0 < 2 ^ s) as P2s by (apply Z.pow_pos_nonneg; [clear; lia | exact Hs]).
  assert (0 < 2 ^ (d - 1)) as P2d
    by (apply Z.pow_pos_nonneg; clear - Pm; lia).
  assert (0 <= q) as Pq by (clear - Eq Br Hm' P2s; nia).
  assert (q * 2 ^ (d - 1) < 2 ^ (53 + s)) as Uq.
  { replace (53 + s) with (1 + 52 + s) by (clear; lia).
    rewrite !Z.pow_add_r by (clear - Hs; lia).
    change (2 ^ 1) with 2. clear - Eq Br Hm' P2s Lm Pq P2d. nia. }
  assert (e' <= -5) as He5 by (clear - He2 HD; lia).
  assert (0 < q -> Zdigits2 q + e' <= -5) as Dq.
  { intros Hq. destruct q as [| q | q]; try (exfalso; clear - Hq; lia).
    change (Zdigits2 (Z.pos q)) with (digits q).
    destruct (Z_lt_le_dec (53 + s - (d - 1)) 0) as [N | N].
    - exfalso.
      assert (2 ^ (53 + s) <= 2 ^ (d - 1))
        by (apply Z.pow_le_mono_r; clear - N Hs; lia).
      clear - Uq H P2d. nia.
    - assert (Z.pos q < 2 ^ (53 + s - (d - 1))) as U.
      { replace (53 + s) with ((53 + s - (d - 1)) + (d - 1)) in Uq
          by (clear; lia).
        rewrite Z.pow_add_r in Uq by (clear - N Pm; lia).
        clear - Uq P2d. nia. }
      pose proof (digits_le (53 + s - (d - 1)) q N U) as Dle.
      clear - Dle Es HD. lia. }
  apply binary_round_aux_upper with (k := -5); auto.
  - clear; lia.
  - clear; lia.
Qed.

Lemma div_one_small x :
  nan_or_posbig 7 x ->
  SF64div (S754_finite false 4503599627370496 (-52)) x = S754_nan \/
  small (SF64div (S754_finite false 4503599627370496 (-52)) x).
Proof.
  intros [-> | H].
  - left. reflexivity.
  - right. destruct x as [s | [] | | [] m e]; cbn [posbig] in H;
      try contradiction.
    + exact I.
    + apply div_one_finite_small, H.
Qed.

(** Valid numbers and comparisons. *)

Lemma valid_finite s m e :
  valid_binary (S754_finite s m e) = true ->
  e = Z.max (digits m + e - 53) (-1074) /\ e <= 971.
Proof.
  cbn [SpecFloat.valid_binary]. unfold bounded, canonical_mantissa.
  rewrite fexp_eq. intros H. apply andb_true_iff in H. destruct H as [C B].
  apply Z.eqb_eq in C. apply Z.leb_le in B.
  change (emax - prec) with 971 in B. fold (digits m) in C. split; auto.
Qed.

Lemma SFltb_finite m1 e1 m2 e2 :
  SFltb (S754_finite false m1 e1) (S754_finite false m2 e2) = true <->
  e1 < e2 \/ (e1 = e2 /\ Zpos m1 < Zpos m2).
Proof.
  unfold SFltb, SFcompare.
  destruct (Z.compare_spec e1 e2) as [E | E | E].
  - fold (Pos.compare m1 m2).
    destruct (Pos.compare_spec m1 m2) as [M | M | M]; split; intros H;
      try discriminate; try reflexivity; try lia.
  - split; [intros _; lia | reflexivity].
  - split; [discriminate | lia].
Qed.

Lemma small_not_above x :
  valid_binary x = true -> small x ->
  SFltb (S754_finite false 4503599627370496 (-56)) x = false.
Proof.
  intros V S. destruct x as [s | s | | s m e]; cbn [small] in S;
    try contradiction.
  - reflexivity.
  - destruct s; [reflexivity |].
    apply valid_finite in V. destruct V as [C _].
    destruct (SFltb (S754_finite false 4503599627370496 (-56))
                (S754_finite false m e)) eqn:L; [| reflexivity].
    apply SFltb_finite in L. exfalso. lia.
Qed.

Lemma not_below_twenty_big x :
  valid_binary x = true ->
  SFltb x (S754_finite false 5629499534213120 (-48)) = false ->
  nan_or_posbig 5 x.
Proof.
  intros V L. destruct x as [s | s | | s m e].
  - discriminate L.
  - destruct s; [discriminate L | right; exact I].
  - left. reflexivity.
  - destruct s; [discriminate L |]. right. cbn [posbig].
    apply valid_finite in V. destruct V as [C _].
    destruct (Z_lt_le_dec (digits m + e) 5) as [N | N]; [| exact N].
    exfalso.
    assert (SFltb (S754_finite false m e)
              (S754_finite false 5629499534213120 (-48)) = true) as T
      by (apply SFltb_finite; lia).
    congruence.
Qed.

Lemma nan_or_posbig_weaken k k' x :
  k' <= k -> nan_or_posbig k x -> nan_or_posbig k' x.
Proof.
  intros Hk [-> | H]; [left; reflexivity | right].
  destruct x as [s | [] | | [] m e]; cbn [posbig] in *; auto. lia.
Qed.

(** Differences. *)

Lemma Zdigits2_abs_ge n v :
  0 <= n -> 2 ^ n <= Z.abs v -> n + 1 <= Zdigits2 v.
Proof.
  intros Hn H. assert (0 < 2 ^ n) by (apply Z.pow_pos_nonneg; lia).
  destruct v as [| p | p]; cbn [Z.abs] in H; try lia;
    exact (digits_ge n p Hn H).
Qed.

Lemma sub_finite_big k mx ex sy my ey :
  -1074 < k ->
  0 <= k - Z.min ex ey - 1 ->
  2 ^ (k - Z.min ex ey - 1)
  <= Z.abs (Zpos mx * 2 ^ (ex - Z.min ex ey)
            - cond_Zopp sy (Zpos my * 2 ^ (ey - Z.min ex ey))) ->
  big k (SF64sub (S754_finite false mx ex) (S754_finite sy my ey)).
Proof.
  intros Hk Hn H. unfold SF64sub, SFsub. cbn [cond_Zopp].
  set (ez := Z.min ex ey) in *.
  destruct (shl_align_spec mx ex ez) as [Hx _].
  destruct (shl_align_spec my ey ez) as [Hy _].
  rewrite (Z.min_r ex ez) in Hx by (subst ez; lia).
  rewrite (Z.min_r ey ez) in Hy by (subst ez; lia).
  rewrite Hx, Hy.
  set (v := Z.pos mx * 2 ^ (ex - ez)
            - cond_Zopp sy (Z.pos my * 2 ^ (ey - ez))) in *.
  pose proof (Zdigits2_abs_ge (k - ez - 1) v Hn H) as D.
  assert (0 < 2 ^ (k - ez - 1)) by (apply Z.pow_pos_nonneg; lia).
  pose proof (binary_normalize_lower v ez k ltac:(lia) Hk ltac:(lia)) as R.
  destruct (binary_normalize prec emax v ez false)
    as [| s' | | s' m' e']; try contradiction.
  - exact I.
  - destruct R as [_ R]. exact R.
Qed.

Lemma pow2_pos n : 0 <= n -> 0 < 2 ^ n.
Proof. intros. apply Z.pow_pos_nonneg; lia. Qed.

Lemma pow2_split a b : 0 <= a -> 0 <= b -> 2 ^ (a + b) = 2 ^ a * 2 ^ b.
Proof. intros. apply Z.pow_add_r; lia. Qed.

(** [C - P] for a constant [C >= 18] and [P < 2]. *)
Lemma sub_below_two Mc ec c P :
  Zpos Mc = c * 2 ^ (- ec) -> -51 <= ec < 0 -> 18 <= c ->
  5 <= digits Mc + ec ->
  valid_binary P = true ->
  SFltb P (S754_finite false 4503599627370496 (-51)) = true ->
  big 5 (SF64sub (S754_finite false Mc ec) P).
Proof.
  intros HM Hec Hc HD V L. destruct P as [s | s | | s my ey].
  - exact HD.
  - exact I.
  - discriminate L.
  - apply valid_finite in V. destruct V as [Cy _].
    pose proof (digits_bounds my) as [_ Uy]. pose proof (digits_pos my) as Py.
    set (dy := digits my) in *. clearbody dy.
    apply sub_finite_big; [lia | lia |].
    set (ez := Z.min ec ey).
    assert (ez <= ec) as Ez1 by (subst ez; apply Z.le_min_l).
    assert (ez <= ey) as Ez2 by (subst ez; apply Z.le_min_r).
    assert (Zpos Mc * 2 ^ (ec - ez) = c * 2 ^ (- ez)) as EC.
    { rewrite HM, <- Z.mul_assoc, <- pow2_split by lia.
      f_equal. f_equal. lia. }
    rewrite EC.
    assert (2 ^ (5 - ez - 1) = 16 * 2 ^ (- ez)) as E16.
    { replace (5 - ez - 1) with (4 + - ez) by lia.
      rewrite pow2_split by lia. reflexivity. }
    rewrite E16.
    pose proof (pow2_pos (- ez) ltac:(lia)) as PT.
    pose proof (pow2_pos (ey - ez) ltac:(lia)) as PY.
    destruct s; cbn [cond_Zopp].
    + set (T := 2 ^ (- ez)) in *. set (Y := 2 ^ (ey - ez)) in *.
      clearbody T Y.
      assert (18 * T <= c * T) as H18 by (clear - PT Hc; nia).
      assert (0 < Z.pos my * Y) as HY by (clear - PY; nia).
      clear - PT H18 HY. lia.
    + apply SFltb_finite in L.
      assert (ez = ey) as -> by (subst ez; apply Z.min_r; lia).
      rewrite Z.sub_diag, Z.pow_0_r, Z.mul_1_r.
      assert (Zpos my < 2 * 2 ^ (- ey)) as Uy'.
      { destruct L as [L | [L1 L2]].
        - apply Z.lt_le_trans with (2 ^ 53).
          + apply Z.lt_le_trans with (2 ^ dy); [exact Uy |].
            apply Z.pow_le_mono_r; lia.
          + change 2 with (2 ^ 1) at 2. rewrite <- pow2_split by lia.
            apply Z.pow_le_mono_r; lia.
        - subst ey. change (2 * 2 ^ (- -51)) with (2 ^ 52). exact L2. }
      set (T := 2 ^ (- ey)) in *. clearbody T.
      assert (18 * T <= c * T) as H18 by (clear - PT Hc; nia).
      clear - PT H18 Uy'. lia.
Qed.

(** [C - P] for constants [B >= C + 16] and [P > B]. *)
Lemma sub_above Mb eb b Mc ec c P :
  Zpos Mb = b * 2 ^ (- eb) -> Zpos Mc = c * 2 ^ (- ec) ->
  ec <= eb < 0 -> -1074 < eb -> c + 16 <= b -> Zpos Mb < 2 ^ 53 ->
  valid_binary P = true ->
  SFltb (S754_finite false Mb eb) P = true ->
  big 5 (SF64sub (S754_finite false Mc ec) P).
Proof.
  intros HB HM Hec Heb Hc UB V L. destruct P as [s | s | | s my ey].
  - discriminate L.
  - exact I.
  - discriminate L.
  - destruct s; [discriminate L |].
    apply SFltb_finite in L.
    apply valid_finite in V. destruct V as [Cy _].
    pose proof (digits_bounds my) as [Ly _]. pose proof (digits_pos my) as Py.
    set (dy := digits my) in *. clearbody dy.
    apply sub_finite_big; [lia | lia |].
    assert (Z.min ec ey = ec) as -> by (apply Z.min_l; lia).
    rewrite Z.sub_diag, Z.pow_0_r, Z.mul_1_r. cbn [cond_Zopp].
    assert (2 ^ (5 - ec - 1) = 16 * 2 ^ (- ec)) as E16.
    { replace (5 - ec - 1) with (4 + - ec) by lia.
      rewrite pow2_split by lia. reflexivity. }
    rewrite E16, HM.
    assert (b * 2 ^ (- ec) < Zpos my * 2 ^ (ey - ec)) as Big.
    { assert (b * 2 ^ (- ec) = Zpos Mb * 2 ^ (eb - ec)) as ->.
      { rewrite HB, <- Z.mul_assoc, <- pow2_split by lia.
        f_equal. f_equal. lia. }
      pose proof (pow2_pos (eb - ec) ltac:(lia)) as PX.
      destruct L as [L | [L1 L2]].
      - assert (dy = 53) as -> by lia.
        replace (ey - ec) with ((ey - eb - 1) + 1 + (eb - ec)) by lia.
        rewrite !pow2_split by lia. change (2 ^ 1) with 2.
        pose proof (pow2_pos (ey - eb - 1) ltac:(lia)) as PZ.
        change (2 ^ (53 - 1)) with 4503599627370496 in Ly.
        change (2 ^ 53) with 9007199254740992 in UB.
        set (X := 2 ^ (eb - ec)) in *. set (W := 2 ^ (ey - eb - 1)) in *.
        clearbody X W.
        assert (Z.pos my <= Z.pos my * W) as HW by (clear - PZ; nia).
        replace (Z.pos my * (W * 2 * X)) with (2 * (Z.pos my * W) * X)
          by (clear; ring).
        apply Z.mul_lt_mono_pos_r; [exact PX |].
        clear - HW Ly UB. lia.
      - subst ey. set (X := 2 ^ (eb - ec)) in *. clearbody X.
        clear - PX L2. nia. }
    pose proof (pow2_pos (- ec) ltac:(lia)) as PT.
    set (T := 2 ^ (- ec)) in *. set (U := Zpos my * 2 ^ (ey - ec)) in *.
    clearbody T U.
    assert ((c + 16) * T <= b * T) as Hb by (clear - PT Hc; nia).
    clear - PT Big Hb. lia.
Qed.

(** The four ways of leaving the window. *)

Lemma sub_20_below_two P :
  valid_binary P = true ->
  SFltb P (S754_finite false 4503599627370496 (-51)) = true ->
  big 5 (SF64sub (S754_finite false 5629499534213120 (-48)) P).
Proof.
  intros V L. apply sub_below_two with (c := 20).
  - reflexivity.
  - lia.
  - lia.
  - vm_compute. discriminate.
  - exact V.
  - exact L.
Qed.

Lemma sub_800_below_two P :
  valid_binary P = true ->
  SFltb P (S754_finite false 4503599627370496 (-51)) = true ->
  big 5 (SF64sub (S754_finite false 7036874417766400 (-43)) P).
Proof.
  intros V L. apply sub_below_two with (c := 800).
  - reflexivity.
  - lia.
  - lia.
  - vm_compute. discriminate.
  - exact V.
  - exact L.
Qed.

Lemma sub_20_above_798 P :
  valid_binary P = true ->
  SFltb (S754_finite false 7019282231721984 (-43)) P = true ->
  big 5 (SF64sub (S754_finite false 5629499534213120 (-48)) P).
Proof.
  intros V L.
  apply sub_above with (Mb := 7019282231721984%positive) (eb := -43)
                       (b := 798) (c := 20).
  - reflexivity.
  - reflexivity.
  - lia.
  - lia.
  - lia.
  - reflexivity.
  - exact V.
  - exact L.
Qed.

Lemma sub_800_above_1598 P :
  valid_binary P = true ->
  SFltb (S754_finite false 7028078324744192 (-42)) P = true ->
  big 5 (SF64sub (S754_finite false 7036874417766400 (-43)) P).
Proof.
  intros V L.
  apply sub_above with (Mb := 7028078324744192%positive) (eb := -42)
                       (b := 1598) (c := 800).
  - reflexivity.
  - reflexivity.
  - lia.
  - lia.
  - lia.
  - reflexivity.
  - exact V.
  - exact L.
Qed.

End Binary64.



Lemma distance_spec (p : vec) :
  Prim2SF (magnitude (vsub goal p))
  = SF64sqrt
      (SF64add
         (SF64mul (SF64sub SF20 (Prim2SF (fst p)))
            (SF64sub SF20 (Prim2SF (fst p))))
         (SF64mul (SF64sub SF800 (Prim2SF (snd p)))
            (SF64sub SF800 (Prim2SF (snd p))))).
Proof.
  unfold magnitude, vsub. cbn [fst snd].
  rewrite sqrt_spec, add_spec, !mul_spec, !sub_spec. reflexivity.
Qed.

Lemma out_of_bounds_cases (p : vec) :
  out_of_bounds p = true ->
  big 5%Z (SF64sub SF20 (Prim2SF (fst p))) \/
  big 5%Z (SF64sub SF800 (Prim2SF (snd p))).
Proof.
  unfold out_of_bounds, gtb. intros H.
  pose proof (Prim2SF_valid (fst p)) as V0.
  pose proof (Prim2SF_valid (snd p)) as V1.
  apply orb_true_iff in H. destruct H as [H | H].
  - apply orb_true_iff in H. destruct H as [H | H].
    + apply orb_true_iff in H. destruct H as [H | H].
      * left. rewrite ltb_spec in H. apply sub_20_below_two; [exact V0 |].
        exact H.
      * right. rewrite ltb_spec in H. apply sub_800_below_two; [exact V1 |].
        exact H.
    + left. rewrite ltb_spec in H. apply sub_20_above_798; [exact V0 |].
      exact H.
  - right. rewrite ltb_spec in H. apply sub_800_above_1598; [exact V1 |].
    exact H.
Qed.

Lemma far_distance_big (p : vec) :
  far p = true ->
  nan_or_posbig 5%Z (Prim2SF (magnitude (vsub goal p))).
Proof.
  unfold far. intros H. apply orb_true_iff in H. destruct H as [H | H].
  - rewrite distance_spec.
    apply (sqrt_nan_or_posbig 5%Z); [lia |]. change (2 * 5 - 1)%Z with 9%Z.
    destruct (out_of_bounds_cases p H) as [B | B].
    + apply add_posbig_nonneg; [lia | | apply square_nonneg].
      apply (square_big 5%Z); [lia | exact B].
    + apply add_nonneg_posbig; [lia | apply square_nonneg |].
      apply (square_big 5%Z); [lia | exact B].
  - apply negb_true_iff in H. unfold in_goal in H. rewrite ltb_spec in H.
    apply not_below_twenty_big; [apply Prim2SF_valid | exact H].
Qed.


Lemma far_fitness_small (p : vec) :
  far p = true ->
  (0.0625 <? 1 / (magnitude (vsub goal p) * magnitude (vsub goal p))) = false.
Proof.
  intros H. apply far_distance_big in H.
  pose proof (Prim2SF_valid (1 / (magnitude (vsub goal p)
                                  * magnitude (vsub goal p)))) as V.
  rewrite ltb_spec.
  rewrite div_spec, mul_spec in V. rewrite div_spec, mul_spec.
  set (D := Prim2SF (magnitude (vsub goal p))) in *. clearbody D.
  apply (square_nan_or_posbig 5%Z) in H; [| lia].
  apply nan_or_posbig_weaken with (k' := 7%Z) in H; [| lia].
  apply div_one_small in H.
  change (Prim2SF 1) with SF1 in *.
  change (Prim2SF 0.0625) with SF16th.
  set (F := SF64div SF1 (SF64mul D D)) in *.
  fold SF1 in H. fold F in H. clearbody F.
  destruct H as [-> | H]; [reflexivity |].
  apply small_not_above; assumption.
Qed.

Lemma above_sixteenth_trans (a x : float) :
  (0.0625 <=? a) = true -> (a <? x) = true -> (0.0625 <? x) = true.
Proof.
  rewrite leb_spec, !ltb_spec.
  change (Prim2SF 0.0625) with SF16th.
  set (A := Prim2SF a). set (X := Prim2SF x). clearbody A X.
  unfold SF16th.
  destruct A as [sa | sa | | sa ma ea]; destruct X as [sx | sx | | sx mx ex];
    try destruct sa; try destruct sx; try discriminate; try reflexivity.
  intros L1 L2. apply SFltb_finite. apply SFltb_finite in L2.
  unfold SFleb, SFcompare in L1.
  destruct (Z.compare_spec (-56) ea) as [E1 | E1 | E1]; try discriminate;
    [| lia].
  fold (Pos.compare 4503599627370496 ma) in L1.
  destruct (Pos.compare_spec 4503599627370496 ma) as [M | M | M];
    try discriminate; lia.
Qed.
(* ================================================================= *)
(** * The real values of the floats

    The value a rounding returns, first on the integers the operations
    hand to it, then as a real number: every operation returns the exact
    result with a relative error of at most [2^-52] and an absolute error of
    at most [2^-1074], or an infinity for a result of [2^1023] or more. *)

Section Rounding.

Local Open Scope Z_scope.







End Rounding.

Section RealValues.

Local Abbreviation not_negative := nonneg.
Import Reals.
Local Open Scope R_scope.



Lemma bpow_IZR k : (0 <= k)%Z -> IZR (2 ^ k) = bpow k.
Proof.
  intros H. unfold bpow. destruct k as [| p | p]; [reflexivity | | lia].
  change (2 ^ Zpos p)%Z with (Z.pow_pos 2 p). apply Zpower_pos_powerRZ.
Qed.





Lemma IZR_lt_bpow m : (0 < m)%Z -> IZR m < bpow (Zdigits2 m).
Proof.
  intros H. pose proof (Zdigits2_bounds m H) as [_ U].
  pose proof (Zdigits2_ge1 m H).
  rewrite <- bpow_IZR by lia. apply IZR_lt, U.
Qed.





















(** *** Constants *)









(** *** The rounding error, in the form the analysis uses *)


(** *** Order *)





(** *** Operations whose result is a number *)








(** *** The norm of a pair *)





End RealValues.

(* ================================================================= *)
(** * Sampling of directions *)



Section Sampling.

Import Reals.



End Sampling.


(* ================================================================= *)
(** * Runs *)

(** ** One call of [Dot.update] *)

Lemma terminal_false (d : Dot) :
  terminal d = false -> dead d = false /\ reached_goal d = false.
Proof.
  unfold terminal. destruct (dead d), (reached_goal d); simpl; intros H;
    try discriminate; auto.
Qed.

Lemma update_active (d : Dot) (g : Globals) :
  terminal d = false ->
  update d g
  = check_collisions (kinematics (fst (next_direction d g)))
      (snd (next_direction d g)).
Proof.
  intros H. apply terminal_false in H. destruct H as [Hd Hr].
  unfold update, move. rewrite Hd, Hr. simpl.
  destruct (next_direction d g) as [d1 g1]. reflexivity.
Qed.

(** The three ways out of the chain of tests. *)
Lemma check_collisions_cases (d : Dot) (g : Globals) :
  (check_collisions d g = (set_dead d, incr_dead g) /\ far (pos d) = true) \/
  (check_collisions d g = (set_reached_goal d, incr_goal g) /\
   out_of_bounds (pos d) = false /\ in_goal (pos d) = true) \/
  (check_collisions d g = (d, g) /\ far (pos d) = true).
Proof.
  unfold check_collisions, far.
  destruct (out_of_bounds (pos d)); [left; auto |].
  destruct (in_goal (pos d)); [right; left; auto |].
  destruct (in_rect rect_1 (pos d)); [left; auto |].
  destruct (in_rect rect_2 (pos d)); [left; auto |].
  right; right; auto.
Qed.

Lemma next_direction_cases (d : Dot) (g : Globals) :
  ((step (brain d) < length (directions (brain d)))%nat /\
   snd (next_direction d g) = g /\
   brain (fst (next_direction d g))
   = {| directions := directions (brain d); step := S (step (brain d)) |} /\
   dead (fst (next_direction d g)) = dead d) \/
  ((length (directions (brain d)) <= step (brain d))%nat /\
   next_direction d g = (set_dead d, incr_dead g)).
Proof.
  unfold next_direction.
  destruct (Nat.ltb_spec (step (brain d)) (length (directions (brain d))));
    [left | right]; simpl; auto.
Qed.

Lemma next_direction_frame (d : Dot) (g : Globals) :
  let d1 := fst (next_direction d g) in
  directions (brain d1) = directions (brain d) /\
  pos d1 = pos d /\ vel d1 = vel d /\
  reached_goal d1 = reached_goal d /\
  fitness d1 = fitness d /\ is_best d1 = is_best d.
Proof.
  unfold next_direction.
  destruct (step (brain d) <? length (directions (brain d)))%nat; simpl;
    repeat split.
Qed.

Lemma check_collisions_frame (d : Dot) (g : Globals) :
  let d1 := fst (check_collisions d g) in
  brain d1 = brain d /\ pos d1 = pos d /\ vel d1 = vel d /\ acc d1 = acc d /\
  fitness d1 = fitness d /\ is_best d1 = is_best d /\
  (dead d = true -> dead d1 = true) /\
  (reached_goal d = true -> reached_goal d1 = true).
Proof.
  destruct (check_collisions_cases d g) as [[E _] | [[E _] | [E _]]];
    rewrite E; simpl; repeat split; auto.
Qed.

Lemma advance_terminal (d : Dot) : terminal d = true -> advance d = d.
Proof.
  intros H. unfold advance. rewrite (update_terminal d _ H). reflexivity.
Qed.

Lemma update_fst (d : Dot) (g : Globals) : fst (update d g) = advance d.
Proof.
  unfold advance. destruct (terminal d) eqn:T.
  - rewrite !(update_terminal d _ T). reflexivity.
  - rewrite !update_active by exact T.
    unfold next_direction.
    destruct (step (brain d) <? length (directions (brain d)))%nat;
      cbn [fst snd]; unfold check_collisions;
      repeat match goal with
             | |- context [if ?c then _ else _] => destruct c
             end; reflexivity.
Qed.

(** [Dot.update] reads neither the fitness nor the mark of the best. *)
Lemma check_collisions_bare (d : Dot) (g : Globals) :
  check_collisions (bare d) g
  = (bare (fst (check_collisions d g)), snd (check_collisions d g)).
Proof.
  unfold check_collisions. change (pos (bare d)) with (pos d).
  destruct (out_of_bounds (pos d)); [reflexivity |].
  destruct (in_goal (pos d)); [reflexivity |].
  destruct (in_rect rect_1 (pos d)); [reflexivity |].
  destruct (in_rect rect_2 (pos d)); reflexivity.
Qed.

Lemma next_direction_bare (d : Dot) (g : Globals) :
  next_direction (bare d) g
  = (bare (fst (next_direction d g)), snd (next_direction d g)).
Proof.
  unfold next_direction. change (brain (bare d)) with (brain d).
  destruct (step (brain d) <? length (directions (brain d)))%nat;
    reflexivity.
Qed.

Lemma advance_bare (d : Dot) : advance (bare d) = bare (advance d).
Proof.
  destruct (terminal d) eqn:T.
  - rewrite (advance_terminal d T). apply advance_terminal. exact T.
  - unfold advance. rewrite !update_active by exact T.
    rewrite next_direction_bare. cbn [fst snd].
    change (kinematics (bare (fst (next_direction d
              {| dead_count := 0; goal_count := 0 |}))))
      with (bare (kinematics (fst (next_direction d
              {| dead_count := 0; goal_count := 0 |})))).
    rewrite check_collisions_bare. reflexivity.
Qed.

Lemma bare_set_dead (d : Dot) : bare (set_dead d) = set_dead (bare d).
Proof. reflexivity. Qed.

Lemma set_dead_idem (d : Dot) : set_dead (set_dead d) = set_dead d.
Proof. reflexivity. Qed.

Lemma advance_directions (d : Dot) :
  directions (brain (advance d)) = directions (brain d).
Proof.
  destruct (terminal d) eqn:T.
  - rewrite advance_terminal by exact T. reflexivity.
  - unfold advance. rewrite update_active by exact T.
    destruct (check_collisions_frame
                (kinematics (fst (next_direction d
                                    {| dead_count := 0; goal_count := 0 |})))
                (snd (next_direction d
                        {| dead_count := 0; goal_count := 0 |})))
      as (B & _).
    rewrite B. cbn [kinematics brain].
    apply next_direction_frame.
Qed.

(** What one move does to an active dot: it takes a step when a direction is
    left and is marked dead otherwise, and it ends flagged as having reached
    the goal or at a position that is out of the window or not within the
    goal. *)
Lemma advance_active (d : Dot) :
  terminal d = false ->
  ((step (brain d) < length (directions (brain d)))%nat ->
   step (brain (advance d)) = S (step (brain d))) /\
  ((length (directions (brain d)) <= step (brain d))%nat ->
   step (brain (advance d)) = step (brain d) /\ dead (advance d) = true) /\
  (reached_goal (advance d) = true \/
   (reached_goal (advance d) = false /\ far (pos (advance d)) = true)).
Proof.
  intros T. unfold advance. rewrite update_active by exact T.
  apply terminal_false in T. destruct T as [Hd Hr].
  set (g0 := {| dead_count := 0; goal_count := 0 |}).
  set (d1 := kinematics (fst (next_direction d g0))).
  set (g1 := snd (next_direction d g0)).
  assert (reached_goal d1 = false) as R1.
  { subst d1. cbn [kinematics reached_goal].
    rewrite <- Hr. apply next_direction_frame. }
  destruct (check_collisions_frame d1 g1) as (B & P & _ & _ & _ & _ & D & _).
  split; [| split].
  - intros L. rewrite B. subst d1. cbn [kinematics brain].
    destruct (next_direction_cases d g0) as [(_ & _ & E & _) | (L' & _)];
      [rewrite E; reflexivity | lia].
  - intros L. rewrite B. subst d1. cbn [kinematics brain dead] in *.
    destruct (next_direction_cases d g0) as [(L' & _) | (_ & E)]; [lia |].
    rewrite E in *. cbn [fst set_dead brain dead] in *.
    split; [reflexivity | apply D; reflexivity].
  - destruct (check_collisions_cases d1 g1) as [[E F] | [[E _] | [E F]]];
      rewrite E; cbn [fst set_dead set_reached_goal reached_goal pos].
    + right. split; [exact R1 | exact F].
    + left. reflexivity.
    + right. split; [exact R1 | exact F].
Qed.

(** ** Trajectories *)

Lemma trajectory_S (g : list vec) (k : nat) :
  trajectory g (S k) = advance (trajectory g k).
Proof. reflexivity. Qed.

Lemma far_start : far start_pos = true.
Proof. vm_compute. reflexivity. Qed.

Lemma trajectory_shape (g : list vec) :
  (1 <= length g)%nat ->
  forall k,
    let t := trajectory g k in
    directions (brain t) = g /\
    (step (brain t) <= length g)%nat /\
    (step (brain t) <= k)%nat /\
    (terminal t = false -> step (brain t) = k) /\
    (terminal t = true -> (step (brain t) < length g)%nat ->
     trajectory g (step (brain t)) = t) /\
    (reached_goal t = true -> (1 <= step (brain t))%nat) /\
    (reached_goal t = true \/
     (reached_goal t = false /\ far (pos t) = true)).
Proof.
  intros Hg. induction k as [| k IH]; intros t.
  - subst t.
    change (trajectory g 0) with (Dot_init {| directions := g; step := 0 |}).
    cbn [Dot_init brain directions step reached_goal pos].
    split; [reflexivity |]. split; [lia |]. split; [lia |].
    split; [reflexivity |]. split; [discriminate |].
    split; [discriminate |].
    right. split; [reflexivity | exact far_start].
  - subst t. rewrite trajectory_S. cbv zeta in IH.
    set (t := trajectory g k) in *.
    destruct IH as (Dg & Sn & Sk & Act & Term & R1 & Far).
    destruct (terminal t) eqn:T.
    + rewrite advance_terminal by exact T.
      split; [exact Dg |]. split; [exact Sn |]. split; [lia |].
      split; [rewrite T; discriminate |].
      split; [intros _; apply Term; reflexivity |].
      split; [exact R1 | exact Far].
    + specialize (Act eq_refl).
      destruct (advance_active t T) as (St & Ex & Far').
      rewrite Dg in St, Ex.
      assert (directions (brain (advance t)) = g) as Dg'
        by (rewrite advance_directions; exact Dg).
      destruct (Nat.lt_ge_cases (step (brain t)) (length g)) as [L | L].
      * specialize (St L). rewrite St, Act.
        split; [exact Dg' |]. split; [lia |]. split; [lia |].
        split; [reflexivity |]. split; [reflexivity |].
        split; [lia | exact Far'].
      * destruct (Ex L) as [E D]. rewrite E.
        split; [exact Dg' |]. split; [lia |]. split; [lia |].
        split.
        { intros A. unfold terminal in A. rewrite D in A. discriminate. }
        split; [lia |]. split; [lia | exact Far'].
Qed.

Lemma trajectory_absorbs (g : list vec) (k j : nat) :
  terminal (trajectory g k) = true ->
  trajectory g (j + k) = trajectory g k.
Proof.
  intros T. induction j as [| j IH]; [reflexivity |].
  cbn [Nat.add]. rewrite trajectory_S, IH. apply advance_terminal, T.
Qed.

(** A trajectory that reaches the goal with [s] steps never has more than
    [s] steps, and is terminal only as it is after them. *)
Lemma trajectory_of_elite (g : list vec) (s : nat) :
  (1 <= length g)%nat ->
  reached_goal (trajectory g s) = true ->
  step (brain (trajectory g s)) = s ->
  forall k,
    (step (brain (trajectory g k)) <= s)%nat /\
    (terminal (trajectory g k) = true -> trajectory g k = trajectory g s).
Proof.
  intros Hg R Hs k.
  assert (terminal (trajectory g s) = true) as Ts
    by (unfold terminal; rewrite R; apply orb_true_r).
  destruct (Nat.le_gt_cases k s) as [L | L].
  - assert (terminal (trajectory g k) = true ->
            trajectory g k = trajectory g s) as A.
    { intros T. replace s with ((s - k) + k)%nat by lia.
      symmetry. apply trajectory_absorbs, T. }
    split; [| exact A].
    destruct (terminal (trajectory g k)) eqn:T.
    + rewrite (A eq_refl). lia.
    + destruct (trajectory_shape g Hg k) as (_ & _ & Sk & _). lia.
  - assert (trajectory g k = trajectory g s) as E.
    { replace k with ((k - s) + s)%nat by lia.
      apply trajectory_absorbs, Ts. }
    rewrite E. split; [lia | reflexivity].
Qed.

(** ** One call of [Population.update] *)

Lemma update_dot_fst (m : nat) (d : Dot) (g : Globals) :
  fst (update_dot m d g)
  = if (m <? step (brain d))%nat then set_dead d else advance d.
Proof.
  unfold update_dot. destruct (m <? step (brain d))%nat;
    [reflexivity | apply update_fst].
Qed.

Lemma advance_step_le (d : Dot) :
  (step (brain (advance d)) <= S (step (brain d)))%nat.
Proof.
  destruct (terminal d) eqn:T.
  - rewrite advance_terminal by exact T. lia.
  - destruct (advance_active d T) as (St & Ex & _).
    destruct (Nat.lt_ge_cases (step (brain d))
                (length (directions (brain d)))) as [L | L].
    + rewrite (St L). lia.
    + destruct (Ex L) as [E _]. rewrite E. lia.
Qed.

Lemma on_track_update_dot (m : nat) (d : Dot) (g : Globals) :
  on_track d -> on_track (fst (update_dot m d g)).
Proof.
  intros [L [k H]]. rewrite update_dot_fst.
  destruct (m <? step (brain d))%nat.
  - split; [exact L |]. cbn [set_dead brain]. exists k.
    rewrite bare_set_dead. right.
    destruct H as [H | H]; rewrite H; reflexivity.
  - split; [rewrite advance_directions; exact L |].
    rewrite advance_directions. rewrite <- advance_bare.
    destruct H as [H | H]; rewrite H.
    + exists (S k). left. reflexivity.
    + exists k. right. apply advance_terminal. reflexivity.
Qed.

Lemma step_update_dot (m : nat) (d : Dot) (g : Globals) :
  (step (brain d) <= S m)%nat ->
  (step (brain (fst (update_dot m d g))) <= S m)%nat.
Proof.
  intros H. rewrite update_dot_fst.
  destruct (Nat.ltb_spec m (step (brain d))).
  - exact H.
  - pose proof (advance_step_le d). lia.
Qed.

Lemma on_track_size (d : Dot) :
  on_track d -> (1 <= length (directions (brain d)))%nat.
Proof. intros [L _]. rewrite L. unfold brain_size. lia. Qed.

Lemma elite_update_dot (s : nat) (d : Dot) (g : Globals) :
  on_track d -> elite_replays s d ->
  elite_replays s (fst (update_dot s d g)).
Proof.
  intros OT ([k H] & R & Hs).
  pose proof (on_track_size d OT) as Hg.
  destruct (trajectory_of_elite _ s Hg R Hs k) as [B _].
  assert (step (brain d) <= s)%nat as B'.
  { change (brain d) with (brain (bare d)). rewrite H. exact B. }
  rewrite update_dot_fst.
  destruct (Nat.ltb_spec s (step (brain d))); [lia |].
  unfold elite_replays. rewrite advance_directions.
  split; [| split; assumption].
  exists (S k). rewrite <- advance_bare, H. reflexivity.
Qed.

Lemma update_dots_cons (m : nat) (d : Dot) (ds : list Dot) (g : Globals) :
  fst (update_dots m (d :: ds) g)
  = fst (update_dot m d g)
    :: fst (update_dots m ds (snd (update_dot m d g))).
Proof.
  cbn [update_dots]. destruct (update_dot m d g) as [d' g']. cbn [fst snd].
  destruct (update_dots m ds g') as [ds' g'']. reflexivity.
Qed.

Lemma update_dots_Forall (P : Dot -> Prop) (m : nat) :
  (forall d g, P d -> P (fst (update_dot m d g))) ->
  forall ds g, Forall P ds -> Forall P (fst (update_dots m ds g)).
Proof.
  intros HP. induction ds as [| d ds IH]; intros g H.
  - constructor.
  - rewrite update_dots_cons. inversion H as [| d' ds' Hd Hds]; subst.
    constructor; [apply HP, Hd | apply IH, Hds].
Qed.

Lemma update_dots_length (m : nat) :
  forall ds g, length (fst (update_dots m ds g)) = length ds.
Proof.
  induction ds as [| d ds IH]; intros g; [reflexivity |].
  rewrite update_dots_cons. cbn [length]. rewrite IH. reflexivity.
Qed.

Lemma Population_update_fst (p : Population) (g : Globals) :
  fst (Population_update p g)
  = set_dots (fst (update_dots (min_step p) (dots p) g)) p.
Proof.
  unfold Population_update.
  destruct (update_dots (min_step p) (dots p) g) as [ds g']. reflexivity.
Qed.

Lemma run_invariant_update (p : Population) (g : Globals) :
  run_invariant p -> run_invariant (fst (Population_update p g)).
Proof.
  intros (OT & St & M & El). rewrite Population_update_fst.
  unfold run_invariant. cbn [set_dots dots min_step].
  split; [| split; [| split]].
  - apply update_dots_Forall; [| exact OT].
    intros d g'. apply on_track_update_dot.
  - apply update_dots_Forall; [| exact St].
    intros d g'. apply step_update_dot.
  - exact M.
  - intros L. destruct (El L) as (d0 & rest & E & R).
    rewrite E. rewrite update_dots_cons.
    eexists. eexists. split; [reflexivity |].
    apply elite_update_dot; [| exact R].
    rewrite E in OT. inversion OT; assumption.
Qed.

(** ** Fitness *)

Lemma reached_fitness_table :
  forallb
    (fun s =>
       (0.0625 <=? reached_fitness s) && (0 <? reached_fitness s)
       && forallb (fun t => negb (reached_fitness s <? reached_fitness t))
            (seq s (401 - s))
       && forallb (fun t => reached_fitness t <? reached_fitness s)
            (seq (S s) (400 - s)))
    (seq 1 400)
  = true.
Proof. vm_compute. reflexivity. Qed.

Lemma reached_fitness_facts (s : nat) :
  (1 <= s <= 400)%nat ->
  (0.0625 <=? reached_fitness s) = true /\
  (0 <? reached_fitness s) = true /\
  (forall t, (s <= t <= 400)%nat ->
     (reached_fitness s <? reached_fitness t) = false) /\
  (forall t, (s < t <= 400)%nat ->
     (reached_fitness t <? reached_fitness s) = true).
Proof.
  intros Hs. pose proof reached_fitness_table as T.
  rewrite forallb_forall in T.
  specialize (T s ltac:(apply in_seq; lia)).
  rewrite !andb_true_iff in T. destruct T as [[[A B] C] D].
  split; [exact A |]. split; [exact B |]. split.
  - intros t Ht. rewrite forallb_forall in C.
    specialize (C t ltac:(apply in_seq; lia)).
    apply negb_true_iff in C. exact C.
  - intros t Ht. rewrite forallb_forall in D.
    exact (D t ltac:(apply in_seq; lia)).
Qed.

Lemma calculate_fitness_Ok (d d1 : Dot) :
  calculate_fitness d = Ok d1 ->
  bare d1 = bare d /\
  (reached_goal d = true ->
   step (brain d) <> 0%nat /\
   fitness d1 = reached_fitness (step (brain d))) /\
  (reached_goal d = false ->
   fitness d1 = 1 / (distance_to_goal d * distance_to_goal d)).
Proof.
  unfold calculate_fitness, calculate_fitness_with.
  fold (distance_to_goal d). destruct (reached_goal d) eqn:R.
  - destruct (Z.eqb_spec (Z.of_nat (step (brain d)) ^ 2) 0) as [E | E];
      [discriminate |].
    destruct (is_infinity (float_of_Z (Z.of_nat (step (brain d)) ^ 2)));
      [discriminate |].
    intros H. injection H as <-.
    split; [reflexivity |]. split; [| discriminate].
    intros _. split; [| reflexivity].
    intros Z. apply E. rewrite Z. reflexivity.
  - intros H. injection H as <-.
    split; [reflexivity |]. split; [discriminate |].
    intros _. reflexivity.
Qed.

Lemma calculate_fitness_dots_Ok :
  forall ds ds1,
    calculate_fitness_dots ds = Ok ds1 ->
    Forall2 (fun d d1 => calculate_fitness d = Ok d1) ds ds1.
Proof.
  induction ds as [| d ds IH]; intros ds1 H; simpl in H.
  - injection H as <-. constructor.
  - apply bind_Ok in H. destruct H as (d1 & Hd & H).
    apply bind_Ok in H. destruct H as (ds' & Hds & H).
    injection H as <-. constructor; [exact Hd | apply IH, Hds].
Qed.

(** The flags, the position and the step count of a dot of a run are those
    of a point of its trajectory. *)
Lemma on_track_point (d : Dot) :
  on_track d ->
  exists k,
    reached_goal d = reached_goal (trajectory (directions (brain d)) k) /\
    pos d = pos (trajectory (directions (brain d)) k) /\
    brain d = brain (trajectory (directions (brain d)) k).
Proof.
  intros [_ [k H]]. exists k.
  destruct H as [H | H].
  - split; [exact (f_equal reached_goal H) |].
    split; [exact (f_equal pos H) | exact (f_equal brain H)].
  - split; [exact (f_equal reached_goal H) |].
    split; [exact (f_equal pos H) | exact (f_equal brain H)].
Qed.

Lemma on_track_facts (d : Dot) :
  on_track d ->
  (step (brain d) <= brain_size)%nat /\
  (reached_goal d = true -> (1 <= step (brain d))%nat) /\
  (reached_goal d = false -> far (pos d) = true) /\
  (reached_goal d = true -> (step (brain d) < brain_size)%nat ->
   reached_goal (trajectory (directions (brain d)) (step (brain d))) = true /\
   step (brain (trajectory (directions (brain d)) (step (brain d))))
   = step (brain d)).
Proof.
  intros OT. pose proof (on_track_size d OT) as Hg.
  pose proof OT as [L _].
  destruct (on_track_point d OT) as (k & R & P & B).
  destruct (trajectory_shape _ Hg k) as (_ & Sn & _ & _ & Term & R1 & Far).
  cbv zeta in *. rewrite <- R, <- P, <- B, L in *.
  split; [exact Sn |]. split; [exact R1 |]. split.
  - intros N. destruct Far as [F | [_ F]]; [congruence | exact F].
  - intros Y Lt.
    assert (terminal (trajectory (directions (brain d)) k) = true) as T
      by (unfold terminal; rewrite <- R, Y; apply orb_true_r).
    rewrite (Term T Lt). rewrite <- R, <- B. split; [exact Y | reflexivity].
Qed.

Lemma scored_of_on_track (m : nat) (d d1 : Dot) :
  on_track d -> (step (brain d) <= S m)%nat ->
  calculate_fitness d = Ok d1 ->
  scored m d1 /\ on_track d1 /\ brain d1 = brain d /\
  reached_goal d1 = reached_goal d /\ dead d1 = dead d.
Proof.
  intros OT St H.
  destruct (calculate_fitness_Ok d d1 H) as (B & Y & N).
  assert (brain d1 = brain d) as Eb
    by (change (brain (bare d1) = brain (bare d)); rewrite B; reflexivity).
  assert (reached_goal d1 = reached_goal d) as Er
    by (change (reached_goal (bare d1) = reached_goal (bare d));
        rewrite B; reflexivity).
  assert (dead d1 = dead d) as Ed
    by (change (dead (bare d1) = dead (bare d)); rewrite B; reflexivity).
  assert (on_track d1) as OT1.
  { unfold on_track in *. rewrite Eb, B. exact OT. }
  split; [| auto].
  destruct (on_track_facts d OT) as (Sn & R1 & F & _).
  unfold scored. rewrite Er, Eb.
  destruct (reached_goal d) eqn:R.
  - left. destruct (Y eq_refl) as [_ Ef].
    specialize (R1 eq_refl). repeat split; auto.
  - right. split; [reflexivity |]. rewrite (N eq_refl).
    apply far_fitness_small. apply F. reflexivity.
Qed.

(** ** The selection *)

Lemma all_dots_dead_terminal (p : Population) :
  all_dots_dead p = true -> Forall (fun d => terminal d = true) (dots p).
Proof.
  unfold all_dots_dead. rewrite forallb_forall, Forall_forall.
  intros H d Hd. specialize (H d Hd). unfold terminal.
  destruct (dead d), (reached_goal d); try reflexivity. exact H.
Qed.

Lemma elite_terminal (s : nat) (d : Dot) :
  on_track d -> elite_replays s d -> terminal d = true ->
  reached_goal d = true /\ step (brain d) = s.
Proof.
  intros OT ([k H] & R & Hs) T.
  pose proof (on_track_size d OT) as Hg.
  destruct (trajectory_of_elite _ s Hg R Hs k) as [_ A].
  assert (terminal (trajectory (directions (brain d)) k) = true) as Tk.
  { rewrite <- H. exact T. }
  specialize (A Tk).
  split.
  - exact (eq_trans (f_equal reached_goal (eq_trans H A)) R).
  - exact (eq_trans (f_equal (fun x => step (brain x)) (eq_trans H A)) Hs).
Qed.

(** Once the running maximum of [set_best_dot] is the fitness of a dot that
    reached the goal within the budget, it stays one. *)
Lemma best_from_leader (m : nat) (all : list Dot) :
  (m <= brain_size)%nat ->
  forall ds i mf mi,
    Forall (scored m) ds ->
    (forall k d, nth_error ds k = Some d ->
                 nth_error all (i + k) = Some d) ->
    (exists d, nth_error all mi = Some d /\ reached_goal d = true /\
               (1 <= step (brain d) <= m)%nat /\
               mf = reached_fitness (step (brain d))) ->
    exists d, nth_error all (snd (best_from i ds mf mi)) = Some d /\
              reached_goal d = true /\
              (1 <= step (brain d) <= m)%nat /\
              fst (best_from i ds mf mi) = reached_fitness (step (brain d)).
Proof.
  intros M. induction ds as [| a ds IH]; intros i mf mi Sc Ix Ld.
  - exact Ld.
  - inversion Sc as [| a' ds' Ha Hds]; subst.
    assert (forall k d, nth_error ds k = Some d ->
                        nth_error all (S i + k) = Some d) as Ix'.
    { intros k d Hk. replace (S i + k)%nat with (i + S k)%nat by lia.
      apply Ix. exact Hk. }
    cbn [best_from]. destruct (gtb (fitness a) mf) eqn:G.
    + apply IH; [exact Hds | exact Ix' |].
      exists a. split.
      { replace i with (i + 0)%nat by lia. apply Ix. reflexivity. }
      destruct Ld as (e & _ & _ & [E1 E2] & ->).
      unfold gtb in G. unfold brain_size in M.
      destruct (reached_fitness_facts (step (brain e)) ltac:(lia))
        as (A & _ & C & _).
      destruct Ha as [(R & [T1 T2] & T3 & F) | (R & F)].
      * split; [exact R |]. split; [| exact F].
        split; [exact T1 |].
        destruct (Nat.le_gt_cases (step (brain e)) (step (brain a)))
          as [L | L]; [| lia].
        rewrite F in G. unfold brain_size in T2.
        rewrite (C (step (brain a)) ltac:(lia)) in G. discriminate.
      * rewrite (above_sixteenth_trans _ _ A G) in F. discriminate.
    + apply IH; [exact Hds | exact Ix' | exact Ld].
Qed.

Lemma best_from_index :
  forall ds i mf mi,
    snd (best_from i ds mf mi) = mi \/
    (i <= snd (best_from i ds mf mi) < i + length ds)%nat.
Proof.
  induction ds as [| a ds IH]; intros i mf mi; cbn [best_from length].
  - left. reflexivity.
  - destruct (gtb (fitness a) mf).
    + destruct (IH (S i) (fitness a) i) as [E | E]; right; lia.
    + destruct (IH (S i) mf mi) as [E | E]; [left; exact E | right; lia].
Qed.

(** The dot [set_best_dot] chooses among the dots of a finished generation:
    the budget it leaves is not above the one it found, and a budget below
    the length of a brain is the step count of a chosen dot that reached
    the goal. *)
Lemma set_best_dot_budget (m : nat) (ds : list Dot) (best : Dot) :
  (m <= brain_size)%nat ->
  Forall (scored m) ds ->
  ((m < brain_size)%nat ->
   exists e rest, ds = e :: rest /\ reached_goal e = true /\
                  step (brain e) = m) ->
  nth_error ds (snd (best_from 0 ds 0 0)) = Some best ->
  let m' := if reached_goal best then step (brain best) else m in
  (m' <= m)%nat /\
  ((m' < brain_size)%nat -> reached_goal best = true).
Proof.
  intros M Sc El Hb m'.
  destruct (Nat.lt_ge_cases m brain_size) as [L | L].
  - destruct (El L) as (e & rest & -> & Re & Se).
    inversion Sc as [| e' r' He Hr]; subst.
    assert (fitness e = reached_fitness (step (brain e)) /\
            (1 <= step (brain e))%nat) as [Fe Ge].
    { destruct He as [(_ & [T1 _] & _ & F) | (R & _)];
        [split; assumption | congruence]. }
    unfold brain_size in L.
    destruct (reached_fitness_facts (step (brain e)) ltac:(lia))
      as (_ & P & _ & _).
    cbn [best_from] in Hb. unfold gtb in Hb at 1.
    rewrite Fe, P in Hb.
    destruct (best_from_leader (step (brain e)) (e :: rest) M rest 1
                (reached_fitness (step (brain e))) 0 Hr) as (d & Hd & Rd & Sd & _).
    + intros k d Hk. exact Hk.
    + exists e. split; [reflexivity |]. split; [exact Re |].
      split; [lia | reflexivity].
    + rewrite Hb in Hd. injection Hd as <-.
      subst m'. rewrite Rd. split; [lia | reflexivity].
  - assert (In best ds) as Hin by (eapply nth_error_In, Hb).
    rewrite Forall_forall in Sc. specialize (Sc best Hin).
    subst m'. destruct (reached_goal best) eqn:R.
    + destruct Sc as [(_ & [_ T2] & _ & _) | (R' & _)];
        [| congruence].
      split; [lia | reflexivity].
    + split; [lia | intros; lia].
Qed.

Lemma mutate_from_length (uniform : nat -> uniform_source)
  (gauss : nat -> vec) :
  forall (ds : list vec) (i : nat),
    length (mutate_from i uniform gauss ds) = length ds.
Proof.
  induction ds as [| d ds IH]; intros i; cbn [mutate_from length];
    [| rewrite IH]; reflexivity.
Qed.

Lemma calculate_fitness_dots_total (ds : list Dot) :
  Forall on_track ds -> exists ds1, calculate_fitness_dots ds = Ok ds1.
Proof.
  induction ds as [| a ds IH]; intros H.
  - exists []. reflexivity.
  - inversion H as [| a' ds' Ha Hds]; subst.
    destruct (IH Hds) as [ds1 E].
    destruct (on_track_facts a Ha) as (Sn & R1 & _).
    assert (exists a1, calculate_fitness a = Ok a1) as [a1 Ea].
    { unfold calculate_fitness, calculate_fitness_with.
      destruct (reached_goal a); [| eauto].
      specialize (R1 eq_refl).
      destruct (Z.eqb_spec (Z.of_nat (step (brain a)) ^ 2) 0) as [Z | Z].
      - exfalso. rewrite Z.pow_2_r in Z. nia.
      - pose proof conversion_table as T. rewrite forallb_forall in T.
        specialize (T (step (brain a))
                      ltac:(apply in_seq; unfold brain_size in Sn; lia)).
        cbv zeta in T. apply andb_true_iff in T. destruct T as [F _].
        apply negb_true_iff in F. rewrite F. eauto. }
    cbn [calculate_fitness_dots]. rewrite Ea, E. cbn [bind]. eauto.
Qed.

Lemma scored_dots (m : nat) :
  forall ds ds1,
    Forall2 (fun d d1 => calculate_fitness d = Ok d1) ds ds1 ->
    Forall on_track ds ->
    Forall (fun d => (step (brain d) <= S m)%nat) ds ->
    Forall (scored m) ds1 /\ Forall on_track ds1.
Proof.
  induction 1 as [| d d1 ds ds1 Hd _ IH]; intros OT St.
  - split; constructor.
  - inversion OT as [| a l Ha Hl]; subst.
    inversion St as [| a l Sa Sl]; subst.
    destruct (IH Hl Sl) as [A B].
    destruct (scored_of_on_track m d d1 Ha Sa Hd) as (C & D & _).
    split; constructor; assumption.
Qed.

(** What a pass of the loop of [main] leaves when no dot is active. *)
Lemma generation_pass (r : Draws) (p : Population) (g : Globals)
  (st' : Population * Globals) :
  all_dots_dead p = true ->
  main_pass r (p, g) = Ok st' ->
  exists ds1 best babies,
    Forall2 (fun d d1 => calculate_fitness d = Ok d1) (dots p) ds1 /\
    nth_error ds1 (snd (best_from 0 ds1 0 0)) = Some best /\
    length babies = (length ds1 - 1)%nat /\
    (forall baby, In baby babies ->
       exists parent, In parent ds1 /\ baby = get_baby parent) /\
    st' = ({| fitness_sum := fold_left add_fitness ds1 0;
              gen := S (gen p);
              best_dot := snd (best_from 0 ds1 0 0);
              min_step := if reached_goal best then step (brain best)
                          else min_step p;
              dots := set_is_best (get_baby best)
                      :: mutate_dots_from 1 (mutate_draw r) (gauss_draw r)
                           babies |},
           {| dead_count := 0; goal_count := 0 |}).
Proof.
  intros D H. unfold main_pass in H. rewrite D in H.
  apply bind_Ok in H. destruct H as (s1 & H1 & H).
  apply bind_Ok in H. destruct H as (s2 & H2 & H).
  injection H as <-.
  unfold Population_calculate_fitness in H1.
  apply bind_Ok in H1. destruct H1 as (ds1 & Hc & H1).
  injection H1 as <-.
  apply natural_selection_Ok in H2.
  destruct H2 as (best & babies & Hbest & Hb & ->).
  cbn [set_dots dots min_step gen fitness_sum] in *.
  destruct (babies_from_parents _ _ _ _ Hb) as (Hlen & Hp).
  exists ds1, best, babies.
  split; [apply calculate_fitness_dots_Ok, Hc |].
  split; [exact Hbest |]. split; [exact Hlen |]. split.
  - intros baby Hin. apply In_nth_error in Hin. destruct Hin as [k Hk].
    destruct (Hp k baby Hk) as (parent & Hsel & ->).
    exists parent. split; [| reflexivity].
    unfold select_parent in Hsel. apply select_from_In in Hsel.
    exact Hsel.
  - reflexivity.
Qed.

Lemma mutate_dots_from_In (uniform : nat -> nat -> uniform_source)
  (gauss : nat -> nat -> vec) :
  forall (ds : list Dot) (i : nat) (d' : Dot),
    In d' (mutate_dots_from i uniform gauss ds) ->
    exists d j, In d ds /\
                d' = set_brain (mutate (uniform j) (gauss j) (brain d)) d.
Proof.
  induction ds as [| d ds IH]; intros i d' H; cbn [mutate_dots_from] in H.
  - destruct H.
  - destruct H as [<- | H].
    + exists d, i. split; [left |]; reflexivity.
    + destruct (IH _ _ H) as (e & j & He & ->).
      exists e, j. split; [right; exact He | reflexivity].
Qed.

(** A dot of a new generation: a new dot whose brain has the length of its
    parent's. *)
Lemma on_track_baby (parent : Dot) :
  on_track parent -> on_track (get_baby parent).
Proof.
  intros [L _]. split; [exact L |]. exists 0%nat. left. reflexivity.
Qed.

Lemma on_track_mutated (u : nat -> uniform_source) (gs : nat -> vec)
  (parent : Dot) :
  on_track parent ->
  on_track (set_brain (mutate u gs (brain (get_baby parent)))
              (get_baby parent)).
Proof.
  intros [L _]. split.
  - cbn [set_brain brain mutate directions get_baby Dot_init clone].
    rewrite mutate_from_length. exact L.
  - exists 0%nat. left. reflexivity.
Qed.

Lemma run_invariant_generation (r : Draws) (p : Population) (g : Globals)
  (st' : Population * Globals) :
  run_invariant p ->
  all_dots_dead p = true ->
  main_pass r (p, g) = Ok st' ->
  run_invariant (fst st') /\ (min_step (fst st') <= min_step p)%nat.
Proof.
  intros (OT & St & M & El) D H.
  destruct (generation_pass r p g st' D H)
    as (ds1 & best & babies & F2 & Hbest & Hlen & Hpar & ->).
  destruct (scored_dots (min_step p) _ _ F2 OT St) as [Sc OT1].
  assert (on_track best) as OTb.
  { rewrite Forall_forall in OT1. eapply OT1, nth_error_In, Hbest. }
  destruct (set_best_dot_budget (min_step p) ds1 best M Sc) as [B1 B2].
  - intros L. destruct (El L) as (d0 & rest & E & R).
    rewrite E in F2, OT.
    inversion F2 as [| x e l rest1 He Hrest]; subst.
    inversion OT as [| x l Hd0 _]; subst.
    pose proof (all_dots_dead_terminal p D) as T.
    rewrite E in T. inversion T as [| x l Td0 _]; subst.
    destruct (elite_terminal _ d0 Hd0 R Td0) as [Rd Sd].
    destruct (calculate_fitness_Ok d0 e He) as (B & _).
    exists e, rest1. split; [reflexivity |]. split.
    + change (reached_goal (bare e) = true). rewrite B. exact Rd.
    + change (step (brain (bare e)) = min_step p). rewrite B. exact Sd.
  - exact Hbest.
  - cbn [fst min_step]. split; [| exact B1].
    unfold run_invariant. cbn [dots min_step].
    split; [| split; [| split]].
    + constructor.
      * destruct (on_track_baby best OTb) as [L K]. split; assumption.
      * rewrite Forall_forall. intros d' Hd'.
        destruct (mutate_dots_from_In _ _ _ _ _ Hd') as (b & j & Hb & ->).
        destruct (Hpar b Hb) as (parent & Hin & ->).
        apply on_track_mutated.
        rewrite Forall_forall in OT1. apply OT1, Hin.
    + constructor; [cbn; lia |].
      rewrite Forall_forall. intros d' Hd'.
      destruct (mutate_dots_from_In _ _ _ _ _ Hd') as (b & j & Hb & ->).
      destruct (Hpar b Hb) as (parent & Hin & ->).
      cbn. lia.
    + lia.
    + intros L. specialize (B2 L).
      eexists. eexists. split; [reflexivity |].
      rewrite B2 in L |- *.
      destruct (on_track_facts best OTb) as (_ & _ & _ & E4).
      destruct (E4 B2 L) as [R4 S4].
      split; [exists 0%nat; reflexivity |]. split; assumption.
Qed.

Lemma run_invariant_start (gauss : nat -> nat -> vec) (n : nat) :
  run_invariant (fst (main_start gauss n)).
Proof.
  unfold run_invariant, main_start, Population_new. cbn [fst dots min_step].
  split; [| split; [| split]].
  - rewrite Forall_forall. intros d Hd. apply in_map_iff in Hd.
    destruct Hd as (i & <- & _). split.
    + unfold Dot_new, Dot_init, Brain_new, randomize.
      cbn [brain directions]. rewrite length_map, length_seq. reflexivity.
    + exists 0%nat. left. reflexivity.
  - rewrite Forall_forall. intros d Hd. apply in_map_iff in Hd.
    destruct Hd as (i & <- & _). cbn [Dot_new Dot_init Brain_new brain step].
    lia.
  - unfold brain_size. lia.
  - unfold brain_size. lia.
Qed.

Lemma reachable_invariant (n : nat) (st : Population * Globals) :
  reachable n st -> run_invariant (fst st).
Proof.
  induction 1 as [gauss | r [p g] st' _ IH H].
  - apply run_invariant_start.
  - cbn [fst] in IH. destruct (all_dots_dead p) eqn:D.
    + apply (run_invariant_generation r p g st' IH D H).
    + unfold main_pass in H. rewrite D in H. injection H as <-.
      apply run_invariant_update, IH.
Qed.

(* ================================================================= *)
(** * The loop of [main] *)

Lemma main_loop_reachable (r : nat -> Draws) (gauss : nat -> nat -> vec)
  (n : nat) :
  forall k st, main_loop r k (main_start gauss n) = Ok st -> reachable n st.
Proof.
  induction k as [| k IH]; intros st H; cbn [main_loop] in H.
  - injection H as <-. apply reachable_start.
  - apply bind_Ok in H. destruct H as (st0 & H0 & H).
    eapply reachable_pass; [apply IH, H0 | exact H].
Qed.

Lemma generation_pass_length (r : Draws) (p : Population) (g : Globals)
  (st' : Population * Globals) :
  all_dots_dead p = true ->
  main_pass r (p, g) = Ok st' ->
  length (dots (fst st')) = length (dots p) /\ (1 <= length (dots p))%nat.
Proof.
  intros D H.
  destruct (generation_pass r p g st' D H)
    as (ds1 & best & babies & F2 & Hb & Hlen & _ & ->).
  cbn [fst dots length]. rewrite mutate_dots_from_length, Hlen.
  apply Forall2_length in F2.
  assert (nth_error ds1 (snd (best_from 0 ds1 0 0)) <> None) as N
    by congruence.
  apply nth_error_Some in N. lia.
Qed.

Lemma update_pass (r : Draws) (p : Population) (g : Globals) :
  all_dots_dead p = false ->
  main_pass r (p, g) = Ok (Population_update p g).
Proof. intros D. unfold main_pass. rewrite D. reflexivity. Qed.

Lemma reachable_length (n : nat) (st : Population * Globals) :
  reachable n st -> length (dots (fst st)) = n.
Proof.
  induction 1 as [gauss | r [p g] st' _ IH H].
  - unfold main_start, Population_new. cbn [fst dots].
    rewrite length_map, length_seq. reflexivity.
  - cbn [fst] in IH. destruct (all_dots_dead p) eqn:D.
    + destruct (generation_pass_length r p g st' D H) as [L _]. lia.
    + rewrite (update_pass r p g D) in H. injection H as <-.
      rewrite Population_update_fst. cbn [set_dots dots].
      rewrite update_dots_length. exact IH.
Qed.

(** X1. The budget [min_step] starts at the length of a brain and never
    grows: along the passes of the loop of [main], whatever the random
    generator returns, it stays where it is or falls. *)
Theorem min_step_never_grows (n : nat) (r : nat -> Draws)
  (st st1 st2 : Population * Globals) (k j : nat) :
  reachable n st ->
  main_loop r k st = Ok st1 ->
  main_loop r (k + j) st = Ok st2 ->
  (min_step (fst st2) <= min_step (fst st1) <= brain_size)%nat.
Proof.
  intros R H1. revert st2.
  assert (reachable n st1) as R1.
  { clear - R H1. revert st1 H1.
    induction k as [| k IH]; intros st1 H1; cbn [main_loop] in H1.
    - injection H1 as <-. exact R.
    - apply bind_Ok in H1. destruct H1 as (st0 & H0 & H1).
      eapply reachable_pass; [apply IH, H0 | exact H1]. }
  assert (forall i st2, main_loop r (k + i) st = Ok st2 ->
            reachable n st2 /\ (min_step (fst st2) <= min_step (fst st1))%nat)
    as A.
  { induction i as [| i IH]; intros st2 H2.
    - rewrite Nat.add_0_r, H1 in H2. injection H2 as <-. split; [exact R1 | lia].
    - rewrite Nat.add_succ_r in H2. cbn [main_loop] in H2.
      apply bind_Ok in H2. destruct H2 as (st0 & H0 & H2).
      destruct (IH st0 H0) as [R0 L0].
      split; [eapply reachable_pass; [exact R0 | exact H2] |].
      destruct st0 as [p g]. cbn [fst] in *.
      pose proof (reachable_invariant n _ R0) as I. cbn [fst] in I.
      destruct (all_dots_dead p) eqn:D.
      + destruct (run_invariant_generation _ p g st2 I D H2) as [_ L]. lia.
      + rewrite (update_pass _ p g D) in H2. injection H2 as <-.
        rewrite Population_update_fst. cbn [set_dots min_step]. exact L0. }
  intros st2 H2. destruct (A j st2 H2) as [_ L]. split; [exact L |].
  destruct (reachable_invariant n _ R1) as (_ & _ & M & _). exact M.
Qed.

Lemma min_step_never_grows_witness :
  exists st1 st2,
    main_loop (fun _ => trio_draws) 401 trio_start = Ok st1 /\
    main_loop (fun _ => trio_draws) 402 trio_start = Ok st2 /\
    min_step (fst st1) = 400%nat /\
    min_step (fst st2) = 113%nat /\
    (min_step (fst st2) <= min_step (fst st1) <= brain_size)%nat.
Proof.
  eexists. eexists.
  split; [vm_compute; reflexivity |].
  split; [vm_compute; reflexivity |].
  split; [reflexivity |]. split; [reflexivity |].
  apply (min_step_never_grows 3 (fun _ => trio_draws) trio_start _ _ 401 1).
  - apply reachable_start.
  - vm_compute. reflexivity.
  - vm_compute. reflexivity.
Defined.

Lemma fitness_pass_returns (n : nat)
  (st : Population * Globals) :
  reachable n st ->
  exists q, Population_calculate_fitness (fst st) = Ok q /\
            length (dots q) = n.
Proof.
  intros R. pose proof (reachable_invariant n st R) as (OT & _).
  destruct (calculate_fitness_dots_total _ OT) as [ds1 E].
  unfold Population_calculate_fitness. rewrite E. cbn [bind].
  eexists. split; [reflexivity |]. cbn [set_dots dots].
  apply calculate_fitness_dots_Ok, Forall2_length in E.
  rewrite <- E. apply reachable_length, R.
Qed.

(** X2. In a run the division of [Dot.calculate_fitness] never fails: a dot
    with the flag [reached_goal] has taken at least one step, and at most
    as many as it has directions, so that [Population.calculate_fitness]
    returns. *)
Theorem fitness_never_fails_in_a_run (n : nat)
  (st : Population * Globals) :
  reachable n st ->
  Forall (fun d => reached_goal d = true ->
                   (1 <= step (brain d) <= brain_size)%nat)
    (dots (fst st)) /\
  exists q, Population_calculate_fitness (fst st) = Ok q /\
            length (dots q) = n.
Proof.
  intros R. pose proof (reachable_invariant n st R) as (OT & _).
  split.
  - rewrite Forall_forall in OT |- *. intros d Hd Rd.
    destruct (on_track_facts d (OT d Hd)) as (A & B & _).
    split; [apply B, Rd | exact A].
  - apply fitness_pass_returns, R.
Qed.

Lemma fitness_never_fails_in_a_run_witness :
  exists st,
    main_loop (fun _ => no_draws) 401 late_start = Ok st /\
    map (fun d => (step (brain d), dead d, reached_goal d)) (dots (fst st))
    = [(400%nat, true, true)] /\
    Forall (fun d => reached_goal d = true ->
                     (1 <= step (brain d) <= brain_size)%nat)
      (dots (fst st)) /\
    exists q, Population_calculate_fitness (fst st) = Ok q /\
              length (dots q) = 1%nat.
Proof.
  eexists. split; [vm_compute; reflexivity |].
  split; [reflexivity |].
  apply (fitness_never_fails_in_a_run 1).
  apply (main_loop_reachable (fun _ => no_draws)
           (fun _ => draws_of late_draws) 1 401).
  vm_compute. reflexivity.
Defined.




(** X4. The swarm keeps its shape along a run: it has the size it was
    built with, every brain has 400 directions, and no dot has taken more
    steps than it has directions, nor more than one step beyond the
    budget. *)
Theorem swarm_keeps_its_shape (n : nat) (st : Population * Globals) :
  reachable n st ->
  length (dots (fst st)) = n /\
  (min_step (fst st) <= brain_size)%nat /\
  Forall (fun d => length (directions (brain d)) = brain_size /\
                   (step (brain d) <= brain_size)%nat /\
                   (step (brain d) <= S (min_step (fst st)))%nat)
    (dots (fst st)).
Proof.
  intros R. pose proof (reachable_invariant n st R) as (OT & St & M & _).
  split; [apply reachable_length, R |]. split; [exact M |].
  rewrite Forall_forall in OT, St |- *. intros d Hd.
  destruct (on_track_facts d (OT d Hd)) as (A & _).
  destruct (OT d Hd) as [L _].
  split; [exact L |]. split; [exact A | apply St, Hd].
Qed.

Lemma swarm_keeps_its_shape_witness :
  exists st,
    main_loop (fun _ => trio_draws) 516 trio_start = Ok st /\
    min_step (fst st) = 113%nat /\
    map (fun d => step (brain d)) (dots (fst st))
    = [113%nat; 114%nat; 114%nat] /\
    length (dots (fst st)) = 3%nat /\
    (min_step (fst st) <= brain_size)%nat /\
    Forall (fun d => length (directions (brain d)) = brain_size /\
                     (step (brain d) <= brain_size)%nat /\
                     (step (brain d) <= S (min_step (fst st)))%nat)
      (dots (fst st)).
Proof.
  eexists. split; [vm_compute; reflexivity |].
  split; [reflexivity |]. split; [reflexivity |].
  apply (swarm_keeps_its_shape 3).
  apply (main_loop_reachable (fun _ => trio_draws)
             (fun i => draws_of (nth i [fast_draws; slow_draws; hover_draws] []))
             3 516).
  vm_compute. reflexivity.
Defined.

(** ** The dot in slot 0 *)

Lemma kinematics_frame (d : Dot) :
  brain (kinematics d) = brain d /\ dead (kinematics d) = dead d /\
  reached_goal (kinematics d) = reached_goal d.
Proof. repeat split. Qed.

(** [Dot.update] sets both flags on a dot only when its directions are
    used up. *)
Lemma trajectory_flags (g : list vec) :
  (1 <= length g)%nat ->
  forall k,
    dead (trajectory g k) = true ->
    reached_goal (trajectory g k) = true ->
    step (brain (trajectory g k)) = length g.
Proof.
  intros Hg. induction k as [| k IH].
  - intros H. discriminate H.
  - rewrite trajectory_S.
    destruct (trajectory_shape g Hg k) as (Dg & Sn & _).
    cbv zeta in Dg, Sn.
    set (t := trajectory g k) in *.
    destruct (terminal t) eqn:T.
    + rewrite (advance_terminal t T). exact IH.
    + destruct (terminal_false t T) as [Dt Rt].
      unfold advance. rewrite (update_active t _ T).
      set (g0 := {| dead_count := 0; goal_count := 0 |}).
      destruct (next_direction_frame t g0) as (_ & _ & _ & R1 & _).
      cbv zeta in R1.
      destruct (next_direction_cases t g0) as [(_ & _ & _ & D1) | (Ge & E)].
      * set (d1 := fst (next_direction t g0)) in *.
        destruct (kinematics_frame d1) as (_ & D2 & R2).
        destruct (check_collisions_cases (kinematics d1)
                    (snd (next_direction t g0)))
          as [[E _] | [[E _] | [E _]]]; rewrite E; cbn [fst];
          cbn [set_dead set_reached_goal dead reached_goal];
          intros A B; congruence.
      * intros _ _.
        destruct (check_collisions_frame
                    (kinematics (fst (next_direction t g0)))
                    (snd (next_direction t g0))) as (B & _).
        cbv zeta in B. rewrite B, E. cbn [fst kinematics brain set_dead].
        rewrite Dg in Ge. lia.
Qed.

(** X5. Once a dot has set the budget below the length of a brain, the dot
    in slot 0 repeats it: in every state of a run it has taken no more
    steps than the budget and is not marked dead, and when no dot is active
    any more it has reached the goal with exactly [min_step] steps. *)
Theorem slot_0_reaches_the_goal_again (n : nat)
  (st : Population * Globals) :
  reachable n st ->
  (min_step (fst st) < brain_size)%nat ->
  exists d0 rest,
    dots (fst st) = d0 :: rest /\
    (step (brain d0) <= min_step (fst st))%nat /\
    dead d0 = false /\
    (all_dots_dead (fst st) = true ->
     reached_goal d0 = true /\ step (brain d0) = min_step (fst st)).
Proof.
  intros R L.
  pose proof (reachable_invariant n st R) as (OT & _ & _ & El).
  destruct (El L) as (d0 & rest & E & El0).
  exists d0, rest. split; [exact E |].
  rewrite E in OT. inversion OT as [| x l Hd0 _]; subst.
  pose proof (on_track_size d0 Hd0) as Hg.
  pose proof Hd0 as [Len _].
  pose proof El0 as ([k H] & Rs & Ss).
  destruct (trajectory_of_elite _ _ Hg Rs Ss k) as [B A].
  split; [| split].
  - change (brain d0) with (brain (bare d0)). rewrite H. exact B.
  - destruct (dead d0) eqn:Dd; [| reflexivity]. exfalso.
    assert (dead (trajectory (directions (brain d0)) k) = true) as Dk.
    { rewrite <- H. exact Dd. }
    assert (terminal (trajectory (directions (brain d0)) k) = true) as Tk.
    { unfold terminal. rewrite Dk. reflexivity. }
    specialize (A Tk). rewrite A in Dk.
    pose proof (trajectory_flags _ Hg _ Dk Rs) as F.
    rewrite Ss, Len in F. lia.
  - intros D. apply all_dots_dead_terminal in D. rewrite E in D.
    inversion D as [| x l T0 _]; subst.
    apply (elite_terminal _ d0); [| exact El0 | exact T0].
    rewrite Forall_forall in OT. apply OT. left. reflexivity.
Qed.

Lemma slot_0_reaches_the_goal_again_witness :
  exists st,
    main_loop (fun _ => trio_draws) 517 trio_start = Ok st /\
    min_step (fst st) = 113%nat /\
    all_dots_dead (fst st) = true /\
    exists d0 rest,
      dots (fst st) = d0 :: rest /\
      (step (brain d0) <= min_step (fst st))%nat /\
      dead d0 = false /\
      (all_dots_dead (fst st) = true ->
       reached_goal d0 = true /\ step (brain d0) = min_step (fst st)).
Proof.
  eexists. split; [vm_compute; reflexivity |].
  split; [reflexivity |]. split; [reflexivity |].
  apply (slot_0_reaches_the_goal_again 3).
  - apply (main_loop_reachable (fun _ => trio_draws)
             (fun i => draws_of (nth i [fast_draws; slow_draws; hover_draws] []))
             3 517).
    vm_compute. reflexivity.
  - vm_compute. lia.
Defined.

(** ** Failures of a pass *)

Lemma babies_from_Raise (self : Population) (u : nat -> uniform_source) :
  forall n i e, babies_from self u i n = Raise e -> e = AttributeError.
Proof.
  induction n as [| n IH]; intros i e H; cbn [babies_from] in H.
  - discriminate H.
  - destruct (select_parent (u i) self) as [parent | z];
      cbn [baby_of bind] in H.
    + destruct (babies_from self u (S i) n) as [l | e0] eqn:B;
        cbn [bind] in H; [discriminate H |].
      injection H as <-. exact (IH _ _ B).
    + injection H as <-. reflexivity.
Qed.

Lemma natural_selection_Raise (u : nat -> uniform_source) (p : Population)
  (e : exn) :
  natural_selection u p = Raise e ->
  (dots p = [] /\ e = IndexError) \/
  ((2 <= length (dots p))%nat /\ e = AttributeError).
Proof.
  unfold natural_selection, set_best_dot. intros H.
  destruct (nth_error (dots p) (snd (best_from 0 (dots p) 0 0)))
    as [best |] eqn:N.
  - right. unfold index in H. rewrite N in H.
    cbn [bind dots best_dot] in H. rewrite N in H. cbn [bind] in H.
    cbn [calculate_fitness_sum dots] in H.
    destruct (length (dots p) - 1)%nat as [| m] eqn:L.
    + cbn [babies_from bind] in H. discriminate H.
    + split; [lia |].
      match type of H with
      | bind ?b _ = _ => destruct b as [l | e0] eqn:B
      end; cbn [bind] in H; [discriminate H |].
      injection H as <-. exact (babies_from_Raise _ _ _ _ _ B).
  - left. unfold index in H. rewrite N in H. cbn [bind] in H.
    injection H as <-. split; [| reflexivity].
    apply nth_error_None in N.
    destruct (best_from_index (dots p) 0 0 0) as [E | E].
    + rewrite E in N. destruct (dots p); [reflexivity |].
      cbn [length] in N. lia.
    + lia.
Qed.

(** X6. A pass of the loop of [main] fails in the selection only: while a
    dot is active it never fails, and when none is, the only failures are
    the [IndexError] of [set_best_dot] on a swarm without dots and the
    [AttributeError] of [natural_selection] on the integer [select_parent]
    returned, in a swarm of two dots or more. *)
Theorem a_pass_fails_only_in_the_selection (n : nat) (r : Draws)
  (st : Population * Globals) (e : exn) :
  reachable n st ->
  main_pass r st = Raise e ->
  all_dots_dead (fst st) = true /\
  ((n = 0%nat /\ e = IndexError) \/ ((2 <= n)%nat /\ e = AttributeError)).
Proof.
  intros R H. pose proof (reachable_length n st R) as L.
  destruct (fitness_pass_returns n st R) as (q & Hq & Lq).
  destruct st as [p g]. cbn [fst] in *.
  unfold main_pass in H. destruct (all_dots_dead p); [| discriminate H].
  split; [reflexivity |].
  rewrite Hq in H. cbn [bind] in H.
  destruct (natural_selection (select_draw r) q) as [s2 | e0] eqn:N;
    cbn [bind] in H; [discriminate H |].
  injection H as <-.
  destruct (natural_selection_Raise _ _ _ N) as [[E ->] | [E ->]].
  - left. rewrite E in Lq. cbn [length] in Lq. split; [lia | reflexivity].
  - right. split; [lia | reflexivity].
Qed.

Lemma a_pass_fails_only_in_the_selection_witness :
  exists st,
    main_loop (fun _ => trio_draws) 401 trio_start = Ok st /\
    main_pass upper_draws st = Raise AttributeError /\
    all_dots_dead (fst st) = true /\
    ((3 = 0 /\ AttributeError = IndexError) \/
     (2 <= 3 /\ AttributeError = AttributeError))%nat.
Proof.
  eexists. split; [vm_compute; reflexivity |].
  split; [vm_compute; reflexivity |].
  apply (a_pass_fails_only_in_the_selection 3 upper_draws).
  - apply (main_loop_reachable (fun _ => trio_draws)
             (fun i => draws_of (nth i [fast_draws; slow_draws; hover_draws] []))
             3 401).
    vm_compute. reflexivity.
  - vm_compute. reflexivity.
Defined.

(** ** A new generation *)

Lemma generation_pass_flags (r : Draws) (p : Population)
  (g : Globals) (st' : Population * Globals) :
  all_dots_dead p = true ->
  main_pass r (p, g) = Ok st' ->
  snd st' = {| dead_count := 0; goal_count := 0 |} /\
  Forall (fun d => dead d = false /\ reached_goal d = false)
    (dots (fst st')).
Proof.
  intros D H.
  destruct (generation_pass r p g st' D H)
    as (ds1 & best & babies & _ & _ & _ & Hpar & ->).
  cbn [fst snd dots]. split; [reflexivity |].
  constructor; [split; reflexivity |].
  rewrite Forall_forall. intros d Hd.
  destruct (mutate_dots_from_In _ _ _ _ _ Hd) as (b & j & Hin & ->).
  destruct (Hpar b Hin) as (parent & _ & ->).
  split; reflexivity.
Qed.

(** X7. The pass that follows the end of a generation leaves a swarm of
    the same size whose dots are all new: at the start position, at rest,
    with no step taken, no flag set and fitness 0, each with as many
    directions as a dot of the old swarm; the dot in slot 0 alone is marked
    as the best.  The generation counter is one higher and the two counters
    of the display are back to 0. *)
Theorem a_generation_starts_afresh (r : Draws) (p : Population)
  (g : Globals) (st' : Population * Globals) :
  all_dots_dead p = true ->
  main_pass r (p, g) = Ok st' ->
  snd st' = {| dead_count := 0; goal_count := 0 |} /\
  gen (fst st') = S (gen p) /\
  length (dots (fst st')) = length (dots p) /\
  forall i d, nth_error (dots (fst st')) i = Some d ->
    pos d = start_pos /\ vel d = (0, 0) /\ acc d = (0, 0) /\
    step (brain d) = 0%nat /\
    dead d = false /\ reached_goal d = false /\ fitness d = 0 /\
    is_best d = (i =? 0)%nat /\
    exists parent, In parent (dots p) /\
      length (directions (brain d)) = length (directions (brain parent)).
Proof.
  intros D H.
  destruct (generation_pass_length r p g st' D H) as [L _].
  destruct (generation_pass r p g st' D H)
    as (ds1 & best & babies & F2 & Hb & Hlen & Hpar & ->).
  cbn [fst snd gen]. split; [reflexivity |]. split; [reflexivity |].
  split; [exact L |].
  assert (forall d1, In d1 ds1 ->
            exists d, In d (dots p) /\ brain d1 = brain d) as Old.
  { clear - F2. induction F2 as [| d d1 ds ds1 Hd _ IH]; intros x Hx.
    - destruct Hx.
    - destruct Hx as [<- | Hx].
      + exists d. split; [left; reflexivity |].
        destruct (calculate_fitness_Ok d d1 Hd) as (B & _).
        exact (f_equal brain B).
      + destruct (IH x Hx) as (y & Hy & E).
        exists y. split; [right; exact Hy | exact E]. }
  cbn [dots]. intros [| i] d Hd; cbn [nth_error] in Hd.
  - injection Hd as <-.
    destruct (Old best (nth_error_In _ _ Hb)) as (parent & Hin & E).
    repeat (split; [reflexivity |]).
    exists parent. split; [exact Hin |].
    cbn [set_is_best get_baby Dot_init clone brain directions].
    rewrite E. reflexivity.
  - apply nth_error_In in Hd.
    destruct (mutate_dots_from_In _ _ _ _ _ Hd) as (b & j & Hin & ->).
    destruct (Hpar b Hin) as (parent1 & Hin1 & ->).
    destruct (Old parent1 Hin1) as (parent & Hp & E).
    repeat (split; [reflexivity |]).
    exists parent. split; [exact Hp |].
    cbn [set_brain get_baby Dot_init clone brain directions mutate].
    rewrite mutate_from_length, E. reflexivity.
Qed.

Lemma a_generation_starts_afresh_witness :
  let g := {| dead_count := 2; goal_count := 2 |} in
  exists p st',
    main_loop (fun _ => trio_draws) 517 trio_start = Ok (p, g) /\
    gen p = 2%nat /\
    main_pass trio_draws (p, g) = Ok st' /\
    snd st' = {| dead_count := 0; goal_count := 0 |} /\
    gen (fst st') = S (gen p) /\
    length (dots (fst st')) = length (dots p) /\
    forall i d, nth_error (dots (fst st')) i = Some d ->
      pos d = start_pos /\ vel d = (0, 0) /\ acc d = (0, 0) /\
      step (brain d) = 0%nat /\
      dead d = false /\ reached_goal d = false /\ fitness d = 0 /\
      is_best d = (i =? 0)%nat /\
      exists parent, In parent (dots p) /\
        length (directions (brain d)) = length (directions (brain parent)).
Proof.
  intros g. eexists. eexists.
  split; [vm_compute; reflexivity |].
  split; [reflexivity |].
  split; [vm_compute; reflexivity |].
  apply (a_generation_starts_afresh trio_draws _ g).
  - vm_compute. reflexivity.
  - vm_compute. reflexivity.
Defined.

(** X8. Among dots that reached the goal, fewer steps mean a strictly
    higher fitness, for every two step counts a brain of 400 directions
    allows: the rounding of [1/16 + 1000/step^2] never lets two of them
    coincide. *)
Theorem fewer_steps_score_higher (d e d' e' : Dot) :
  reached_goal d = true -> reached_goal e = true ->
  (1 <= step (brain d))%nat ->
  (step (brain d) < step (brain e))%nat ->
  (step (brain e) <= brain_size)%nat ->
  calculate_fitness d = Ok d' -> calculate_fitness e = Ok e' ->
  (fitness e' <? fitness d') = true /\ (fitness d' <? fitness e') = false.
Proof.
  intros Rd Re L1 L2 L3 Cd Ce. unfold brain_size in L3.
  destruct (calculate_fitness_Ok d d' Cd) as (_ & Yd & _).
  destruct (calculate_fitness_Ok e e' Ce) as (_ & Ye & _).
  destruct (Yd Rd) as [_ ->]. destruct (Ye Re) as [_ ->].
  destruct (reached_fitness_facts (step (brain d)) ltac:(lia))
    as (_ & _ & A & B).
  split; [apply B; lia | apply A; lia].
Qed.

Lemma fewer_steps_score_higher_witness :
  exists st d e d' e',
    main_loop (fun _ => trio_draws) 401 trio_start = Ok st /\
    nth_error (dots (fst st)) 0 = Some d /\
    nth_error (dots (fst st)) 1 = Some e /\
    step (brain d) = 113%nat /\ step (brain e) = 114%nat /\
    calculate_fitness d = Ok d' /\ calculate_fitness e = Ok e' /\
    (fitness e' <? fitness d') = true /\ (fitness d' <? fitness e') = false.
Proof.
  eexists. eexists. eexists. eexists. eexists.
  split; [vm_compute; reflexivity |].
  split; [reflexivity |]. split; [reflexivity |].
  split; [reflexivity |]. split; [reflexivity |].
  lazymatch goal with
  | |- calculate_fitness ?x = _ /\ calculate_fitness ?y = _ /\ _ =>
      split; [vm_compute; reflexivity |];
      split; [vm_compute; reflexivity |];
      apply (fewer_steps_score_higher x y)
  end.
  - reflexivity.
  - reflexivity.
  - vm_compute. lia.
  - vm_compute. lia.
  - vm_compute. lia.
  - vm_compute. reflexivity.
  - vm_compute. reflexivity.
Defined.

(** ** The counters of the display *)

Lemma count_reached_cons (d : Dot) (ds : list Dot) :
  count_reached (d :: ds)
  = (Nat.b2n (reached_goal d) + count_reached ds)%nat.
Proof.
  unfold count_reached. cbn [filter]. destruct (reached_goal d); reflexivity.
Qed.

Lemma count_dead_cons (d : Dot) (ds : list Dot) :
  count_dead (d :: ds) = (Nat.b2n (dead d) + count_dead ds)%nat.
Proof.
  unfold count_dead. cbn [filter]. destruct (dead d); reflexivity.
Qed.

Lemma count_new (ds : list Dot) :
  Forall (fun d => dead d = false /\ reached_goal d = false) ds ->
  count_reached ds = 0%nat /\ count_dead ds = 0%nat.
Proof.
  induction 1 as [| d ds [Hd Hr] _ [IH1 IH2]].
  - split; reflexivity.
  - rewrite count_reached_cons, count_dead_cons, Hd, Hr, IH1, IH2.
    split; reflexivity.
Qed.

(** One dot under [Population.update]: the counter of the goal moves with
    the flag, the counter of the dead by at least as much as the flag. *)
Lemma update_dot_counters (m : nat) (d : Dot) (g : Globals) :
  (goal_count (snd (update_dot m d g)) + Nat.b2n (reached_goal d)
   = goal_count g + Nat.b2n (reached_goal (fst (update_dot m d g))))%nat /\
  (dead_count g + Nat.b2n (dead (fst (update_dot m d g)))
   <= dead_count (snd (update_dot m d g)) + Nat.b2n (dead d))%nat.
Proof.
  unfold update_dot. destruct (m <? step (brain d))%nat.
  - cbn [fst snd set_dead incr_dead dead reached_goal goal_count dead_count
         Nat.b2n]. lia.
  - destruct (terminal d) eqn:T.
    + rewrite (update_terminal d g T). cbn [fst snd]. lia.
    + rewrite (update_active d g T).
      destruct (terminal_false d T) as [Dd Rd]. rewrite Dd, Rd.
      unfold next_direction.
      destruct (step (brain d) <? length (directions (brain d)))%nat;
        cbn [fst snd];
        match goal with
        | |- context [check_collisions ?x ?y] =>
            destruct (check_collisions_cases x y)
              as [[E _] | [[E _] | [E _]]]; rewrite E
        end;
        cbn [fst snd set_dead set_reached_goal incr_dead incr_goal kinematics
             dead reached_goal goal_count dead_count];
        rewrite ?Dd, ?Rd; cbn [Nat.b2n]; lia.
Qed.

Lemma update_dots_snd (m : nat) (d : Dot) (ds : list Dot) (g : Globals) :
  snd (update_dots m (d :: ds) g)
  = snd (update_dots m ds (snd (update_dot m d g))).
Proof.
  cbn [update_dots]. destruct (update_dot m d g) as [d' g']. cbn [fst snd].
  destruct (update_dots m ds g') as [ds' g'']. reflexivity.
Qed.

Lemma update_dots_counters (m : nat) :
  forall ds g,
    (goal_count (snd (update_dots m ds g)) + count_reached ds
     = goal_count g + count_reached (fst (update_dots m ds g)))%nat /\
    (dead_count g + count_dead (fst (update_dots m ds g))
     <= dead_count (snd (update_dots m ds g)) + count_dead ds)%nat.
Proof.
  induction ds as [| d ds IH]; intros g.
  - cbn [update_dots fst snd]. lia.
  - rewrite update_dots_cons, update_dots_snd.
    rewrite !count_reached_cons, !count_dead_cons.
    destruct (update_dot_counters m d g) as [A B].
    destruct (IH (snd (update_dot m d g))) as [C D].
    lia.
Qed.

Lemma Population_update_snd (p : Population) (g : Globals) :
  snd (Population_update p g) = snd (update_dots (min_step p) (dots p) g).
Proof.
  unfold Population_update.
  destruct (update_dots (min_step p) (dots p) g) as [ds g']. reflexivity.
Qed.

(** X9. Along a run the counter [goal_count] is exact and the counter
    [dead_count] is an upper bound: the first equals the number of dots
    with the flag [reached_goal], the second is never below the number of
    dots with the flag [dead]. *)
Theorem goal_count_is_exact (n : nat) (st : Population * Globals) :
  reachable n st ->
  goal_count (snd st) = count_reached (dots (fst st)) /\
  (count_dead (dots (fst st)) <= dead_count (snd st))%nat.
Proof.
  induction 1 as [gauss | r [p g] st' _ IH H].
  - unfold main_start, Population_new. cbn [fst snd dots goal_count dead_count].
    destruct (count_new (map (fun i => Dot_new (gauss i)) (seq 0 n)))
      as [A B].
    + rewrite Forall_forall. intros d Hd. apply in_map_iff in Hd.
      destruct Hd as (i & <- & _). split; reflexivity.
    + rewrite A, B. split; reflexivity.
  - cbn [fst snd] in IH. destruct (all_dots_dead p) eqn:D.
    + destruct (generation_pass_flags r p g st' D H) as (E & F).
      rewrite E. cbn [goal_count dead_count].
      destruct (count_new (dots (fst st')) F) as [A B].
      rewrite A, B. split; reflexivity.
    + rewrite (update_pass r p g D) in H. injection H as <-.
      rewrite Population_update_fst, Population_update_snd.
      cbn [set_dots dots].
      destruct (update_dots_counters (min_step p) (dots p) g) as [A B].
      destruct IH as [I1 I2]. lia.
Qed.

Lemma goal_count_is_exact_witness :
  exists st,
    main_loop (fun _ => no_draws) 401 edge_start = Ok st /\
    count_dead (dots (fst st)) = 1%nat /\
    dead_count (snd st) = 2%nat /\
    goal_count (snd st) = count_reached (dots (fst st)) /\
    (count_dead (dots (fst st)) <= dead_count (snd st))%nat.
Proof.
  eexists. split; [vm_compute; reflexivity |].
  split; [reflexivity |]. split; [reflexivity |].
  apply (goal_count_is_exact 1).
  apply (main_loop_reachable (fun _ => no_draws)
           (fun _ => draws_of edge_draws) 1 401).
  vm_compute. reflexivity.
Defined.

(** ** The length of a generation *)

Lemma terminal_all_dots_dead (p : Population) :
  Forall (fun d => terminal d = true) (dots p) -> all_dots_dead p = true.
Proof.
  unfold all_dots_dead. rewrite forallb_forall, Forall_forall.
  intros H d Hd. specialize (H d Hd). unfold terminal in H.
  destruct (dead d), (reached_goal d); try reflexivity. discriminate H.
Qed.

(** A dot that is active after [Population.update] was active before and
    has taken one step more. *)
Lemma update_dot_lag (m : nat) (d : Dot) (g : Globals) (j : nat) :
  (terminal d = false -> (j <= step (brain d))%nat) ->
  terminal (fst (update_dot m d g)) = false ->
  (S j <= step (brain (fst (update_dot m d g))))%nat.
Proof.
  intros L. rewrite update_dot_fst.
  destruct (m <? step (brain d))%nat.
  - unfold terminal. cbn [set_dead dead]. discriminate.
  - destruct (terminal d) eqn:T.
    + rewrite (advance_terminal d T). congruence.
    + specialize (L eq_refl). intros T'.
      destruct (advance_active d T) as (A & B & _).
      destruct (Nat.lt_ge_cases (step (brain d))
                  (length (directions (brain d)))) as [Lt | Ge].
      * rewrite (A Lt). lia.
      * destruct (B Ge) as [_ Dd]. unfold terminal in T'.
        rewrite Dd in T'. discriminate T'.
Qed.

Lemma update_dots_Forall_to (P Q : Dot -> Prop) (m : nat) :
  (forall d g, P d -> Q (fst (update_dot m d g))) ->
  forall ds g, Forall P ds -> Forall Q (fst (update_dots m ds g)).
Proof.
  intros HP. induction ds as [| d ds IH]; intros g H.
  - constructor.
  - rewrite update_dots_cons. inversion H as [| d' ds' Hd Hds]; subst.
    constructor; [apply HP, Hd | apply IH, Hds].
Qed.

(** X10. Every generation ends: from any state of a run, after at most
    401 passes of the loop of [main], and no more than [min_step + 2],
    no dot is active, whatever the random generator returns; until then
    every pass is one [Population.update], which does not fail and leaves
    the generation counter and the budget as they are. *)
Theorem a_generation_ends (n : nat) (r : nat -> Draws)
  (st : Population * Globals) :
  reachable n st ->
  exists k st',
    (k <= S brain_size)%nat /\ (k <= min_step (fst st) + 2)%nat /\
    main_loop r k st = Ok st' /\
    all_dots_dead (fst st') = true /\
    gen (fst st') = gen (fst st) /\
    min_step (fst st') = min_step (fst st).
Proof.
  intros R.
  assert (forall j,
            (exists k st', (k <= j)%nat /\ main_loop r k st = Ok st' /\
               all_dots_dead (fst st') = true /\
               gen (fst st') = gen (fst st) /\
               min_step (fst st') = min_step (fst st)) \/
            (exists st', main_loop r j st = Ok st' /\ reachable n st' /\
               gen (fst st') = gen (fst st) /\
               min_step (fst st') = min_step (fst st) /\
               Forall (fun d => terminal d = false ->
                                (j <= step (brain d))%nat)
                 (dots (fst st')))) as A.
  { induction j as [| j IH].
    - right. exists st. cbn [main_loop].
      repeat (split; [reflexivity || exact R |]).
      rewrite Forall_forall. intros d _ _. lia.
    - destruct IH as [(k & st' & Hk & H) | (st' & Hl & R' & G & M & Lg)].
      + left. exists k, st'. split; [lia | exact H].
      + destruct st' as [p g]. cbn [fst] in *.
        destruct (all_dots_dead p) eqn:D.
        * left. exists j, (p, g). cbn [fst]. repeat split; auto.
        * right. exists (Population_update p g).
          cbn [main_loop]. rewrite Hl. cbn [bind].
          pose proof (update_pass (r j) p g D) as U.
          split; [exact U |].
          split; [eapply reachable_pass; [exact R' | exact U] |].
          rewrite Population_update_fst. cbn [set_dots gen min_step dots].
          split; [exact G |]. split; [exact M |].
          apply (update_dots_Forall_to
                   (fun d => terminal d = false -> (j <= step (brain d))%nat));
            [| exact Lg].
          intros d g0. apply update_dot_lag. }
  set (B := Nat.min brain_size (S (min_step (fst st)))).
  destruct (A (S B)) as [(k & st' & Hk & H) | (st' & Hl & R' & G & M & Lg)].
  - exists k, st'. split; [lia |]. split; [lia | exact H].
  - exists (S B), st'. split; [lia |]. split; [lia |].
    split; [exact Hl |]. split; [| split; assumption].
    apply terminal_all_dots_dead.
    pose proof (reachable_invariant n st' R') as (OT & St & _).
    rewrite Forall_forall in OT, St, Lg |- *. intros d Hd.
    destruct (terminal d) eqn:T; [reflexivity | exfalso].
    specialize (Lg d Hd T). specialize (St d Hd). cbv beta in St.
    destruct (on_track_facts d (OT d Hd)) as (Sn & _).
    rewrite M in St. lia.
Qed.

Lemma a_generation_ends_witness :
  exists k st',
    (k <= S brain_size)%nat /\
    (k <= min_step (fst trio_start) + 2)%nat /\
    main_loop (fun _ => trio_draws) k trio_start = Ok st' /\
    all_dots_dead (fst st') = true /\
    gen (fst st') = gen (fst trio_start) /\
    min_step (fst st') = min_step (fst trio_start).
Proof.
  apply (a_generation_ends 3 (fun _ => trio_draws) trio_start).
  apply reachable_start.
Defined.

(** ** The choice of the best dot *)

(** X11. [set_best_dot] fails on a swarm without dots and on no other, and
    the dot it chooses is one of greatest fitness: no dot of positive
    fitness is rated above it.  The dots stay as they are, and the budget
    becomes the step count of the chosen dot when it reached the goal. *)
Theorem set_best_dot_takes_a_maximum (p : Population) :
  (dots p = [] -> set_best_dot p = Raise IndexError) /\
  (dots p <> [] ->
   exists p' best,
     set_best_dot p = Ok p' /\
     nth_error (dots p) (best_dot p') = Some best /\
     dots p' = dots p /\
     min_step p' = (if reached_goal best then step (brain best)
                    else min_step p) /\
     forall d, In d (dots p) ->
       (0 <? fitness d) = true -> (fitness best <? fitness d) = false).
Proof.
  split.
  - intros E. unfold set_best_dot. rewrite E. reflexivity.
  - intros N. unfold set_best_dot.
    destruct (best_from_max (dots p) 0 0 0) as (_ & B & C).
    cbn zeta in B, C.
    set (r := best_from 0 (dots p) 0 0) in *.
    assert (exists best, nth_error (dots p) (snd r) = Some best)
      as (best & Hb).
    { destruct C as [[C1 C2] | (d & C1 & _ & _ & _)].
      - rewrite C2. destruct (dots p) as [| d0 ds] eqn:E; [congruence |].
        exists d0. reflexivity.
      - exists d. rewrite Nat.sub_0_r in C1. exact C1. }
    pose proof (best_from_chooses_a_maximum (dots p) best Hb) as Hmax.
    unfold index. rewrite Hb. cbn [bind].
    eexists. exists best. split; [reflexivity |].
    cbn [best_dot dots min_step]. repeat split; [exact Hb | exact Hmax].
Qed.

(** ** The two flags *)

Lemma update_dot_flags (m : nat) (d : Dot) (g : Globals) :
  on_track d -> (step (brain d) <= S m)%nat ->
  (dead d = true -> reached_goal d = true ->
   step (brain d) = brain_size \/ step (brain d) = S m) ->
  dead (fst (update_dot m d g)) = true ->
  reached_goal (fst (update_dot m d g)) = true ->
  step (brain (fst (update_dot m d g))) = brain_size \/
  step (brain (fst (update_dot m d g))) = S m.
Proof.
  intros OT St I. rewrite update_dot_fst.
  destruct (Nat.ltb_spec m (step (brain d))) as [Lt | Ge].
  - intros _ _. right. cbn [set_dead brain]. lia.
  - destruct (terminal d) eqn:T.
    + rewrite (advance_terminal d T). exact I.
    + destruct (terminal_false d T) as [Dd Rd].
      pose proof (on_track_size d OT) as Hg.
      destruct OT as [L [k [H | H]]].
      * intros Da Ra. left.
        assert (bare (advance d)
                = trajectory (directions (brain d)) (S k)) as E.
        { rewrite <- advance_bare, H. reflexivity. }
        pose proof (trajectory_flags _ Hg (S k)) as F.
        rewrite <- E in F. specialize (F Da Ra).
        rewrite <- L. exact F.
      * apply (f_equal dead) in H. cbn [bare set_dead dead] in H.
        congruence.
Qed.

(** X12. In a run a dot carries both flags in two cases only: it has used
    all its directions, or it has one step more than the budget.  A dot
    that reached the goal within the budget, and before its directions
    ran out, is never marked dead. *)
Theorem both_flags_only_over_the_budget (n : nat)
  (st : Population * Globals) :
  reachable n st ->
  Forall (fun d => dead d = true -> reached_goal d = true ->
                   step (brain d) = brain_size \/
                   step (brain d) = S (min_step (fst st)))
    (dots (fst st)).
Proof.
  induction 1 as [gauss | r [p g] st' R IH H].
  - unfold main_start, Population_new. cbn [fst dots].
    rewrite Forall_forall. intros d Hd. apply in_map_iff in Hd.
    destruct Hd as (i & <- & _). intros D. discriminate D.
  - cbn [fst] in IH. destruct (all_dots_dead p) eqn:D.
    + destruct (generation_pass_flags r p g st' D H) as (_ & F).
      rewrite Forall_forall in F |- *. intros d Hd.
      destruct (F d Hd) as [Dd _]. intros D'. congruence.
    + rewrite (update_pass r p g D) in H. injection H as <-.
      pose proof (reachable_invariant n _ R) as (OT & St & _).
      cbn [fst] in OT, St.
      rewrite Population_update_fst. cbn [set_dots dots min_step].
      apply (update_dots_Forall_to
               (fun d => on_track d /\ (step (brain d) <= S (min_step p))%nat /\
                         (dead d = true -> reached_goal d = true ->
                          step (brain d) = brain_size \/
                          step (brain d) = S (min_step p)))).
      * intros d g0 (A & B & C). apply update_dot_flags; assumption.
      * rewrite Forall_forall in OT, St, IH |- *. intros d Hd.
        split; [apply OT, Hd |]. split; [apply St, Hd | apply IH, Hd].
Qed.

Lemma both_flags_only_over_the_budget_witness :
  exists st,
    main_loop (fun _ => trio_draws) 517 trio_start = Ok st /\
    min_step (fst st) = 113%nat /\
    map (fun d => (step (brain d), dead d, reached_goal d)) (dots (fst st))
    = [(113%nat, false, true); (114%nat, true, true);
       (114%nat, true, false)] /\
    Forall (fun d => dead d = true -> reached_goal d = true ->
                     step (brain d) = brain_size \/
                     step (brain d) = S (min_step (fst st)))
      (dots (fst st)).
Proof.
  eexists. split; [vm_compute; reflexivity |].
  split; [reflexivity |]. split; [reflexivity |].
  apply (both_flags_only_over_the_budget 3).
  apply (main_loop_reachable (fun _ => trio_draws)
           (fun i => draws_of (nth i [fast_draws; slow_draws; hover_draws] []))
           3 517).
  vm_compute. reflexivity.
Defined.

(** ** What [Population.update] leaves alone *)

Lemma advance_keeps (d : Dot) :
  fitness (advance d) = fitness d /\ is_best (advance d) = is_best d.
Proof.
  destruct (terminal d) eqn:T.
  - rewrite (advance_terminal d T). split; reflexivity.
  - unfold advance. rewrite (update_active d _ T).
    set (g0 := {| dead_count := 0; goal_count := 0 |}).
    destruct (next_direction_frame d g0) as (_ & _ & _ & _ & F1 & B1).
    destruct (check_collisions_frame (kinematics (fst (next_direction d g0)))
                (snd (next_direction d g0)))
      as (_ & _ & _ & _ & F2 & B2 & _).
    cbv zeta in F1, B1, F2, B2. rewrite F2, B2.
    cbn [kinematics fitness is_best]. split; assumption.
Qed.

Lemma update_dot_keeps (m : nat) (d : Dot) (g : Globals) :
  let d' := fst (update_dot m d g) in
  directions (brain d') = directions (brain d) /\
  fitness d' = fitness d /\ is_best d' = is_best d /\
  (dead d = true -> dead d' = true) /\
  (reached_goal d = true -> reached_goal d' = true) /\
  (step (brain d) <= step (brain d') <= S (step (brain d)))%nat /\
  (terminal d = true ->
   brain d' = brain d /\ pos d' = pos d /\ vel d' = vel d /\ acc d' = acc d).
Proof.
  cbv zeta. rewrite update_dot_fst.
  destruct (m <? step (brain d))%nat.
  - cbn [set_dead brain fitness is_best dead reached_goal pos vel acc].
    repeat split; auto.
  - destruct (terminal d) eqn:T.
    + rewrite (advance_terminal d T). repeat split; auto.
    + destruct (terminal_false d T) as [Dd Rd].
      destruct (advance_keeps d) as [F B].
      split; [apply advance_directions |].
      split; [exact F |]. split; [exact B |].
      split; [congruence |]. split; [congruence |].
      split; [| discriminate].
      destruct (advance_active d T) as (St & Ex & _).
      destruct (Nat.lt_ge_cases (step (brain d))
                  (length (directions (brain d)))) as [L | L].
      * rewrite (St L). lia.
      * destruct (Ex L) as [E _]. rewrite E. lia.
Qed.

Lemma update_dots_nth (m : nat) :
  forall ds g i d,
    nth_error ds i = Some d ->
    exists g0,
      nth_error (fst (update_dots m ds g)) i = Some (fst (update_dot m d g0)).
Proof.
  induction ds as [| a ds IH]; intros g i d H.
  - destruct i; discriminate H.
  - rewrite update_dots_cons. destruct i as [| i]; cbn [nth_error] in *.
    + injection H as <-. exists g. reflexivity.
    + apply IH, H.
Qed.

(** X13. [Population.update] changes the dots and nothing else of the
    swarm, and of a dot neither the directions nor the fitness nor the
    mark of the best: it takes at most one step, sets flags and clears
    none, and leaves the position, the velocity and the step count of a
    dot that is dead or reached the goal as they are. *)
Theorem update_keeps_genes_and_flags (p : Population) (g : Globals) :
  let p' := fst (Population_update p g) in
  gen p' = gen p /\ min_step p' = min_step p /\
  fitness_sum p' = fitness_sum p /\ best_dot p' = best_dot p /\
  length (dots p') = length (dots p) /\
  forall i d, nth_error (dots p) i = Some d ->
    exists d',
      nth_error (dots p') i = Some d' /\
      directions (brain d') = directions (brain d) /\
      fitness d' = fitness d /\ is_best d' = is_best d /\
      (dead d = true -> dead d' = true) /\
      (reached_goal d = true -> reached_goal d' = true) /\
      (step (brain d) <= step (brain d') <= S (step (brain d)))%nat /\
      (terminal d = true ->
       brain d' = brain d /\ pos d' = pos d /\ vel d' = vel d /\
       acc d' = acc d).
Proof.
  cbv zeta. rewrite Population_update_fst.
  cbn [set_dots gen min_step fitness_sum best_dot dots].
  repeat (split; [reflexivity |]).
  split; [apply update_dots_length |].
  intros i d H.
  destruct (update_dots_nth (min_step p) (dots p) g i d H) as [g0 E].
  eexists. split; [exact E |]. apply update_dot_keeps.
Qed.

(** ** When the selection succeeds *)

Lemma select_from_below_the_sum (rand : float) (ds : list Dot) :
  ds <> [] ->
  (rand <? fold_left add_fitness ds 0) = true ->
  exists d, select_from ds 0 rand = Parent d.
Proof.
  intros N H.
  pose proof (select_from_first_exceeding rand ds 0) as S.
  destruct (select_from ds 0 rand) as [d | z]; [exists d; reflexivity |].
  exfalso. destruct S as [_ A].
  destruct ds as [| d0 ds]; [congruence |].
  specialize (A (length ds) ltac:(cbn [length]; lia)).
  change (S (length ds)) with (length (d0 :: ds)) in A.
  rewrite firstn_all in A. unfold gtb in A. congruence.
Qed.

Lemma babies_from_returns (self : Population) (u : nat -> uniform_source) :
  (forall i, exists d, select_parent (u i) self = Parent d) ->
  forall n i, exists l, babies_from self u i n = Ok l.
Proof.
  intros H. induction n as [| n IH]; intros i; cbn [babies_from].
  - exists []. reflexivity.
  - destruct (H i) as [d ->]. destruct (IH (S i)) as [l ->].
    cbn [baby_of bind]. eexists. reflexivity.
Qed.

(** X14. The pass that follows the end of a generation succeeds whenever
    the swarm has a dot, the fitnesses can be computed and every answer of
    the generator to [select_parent] lies below the sum of the fitnesses:
    [select_parent] then returns a dot each time.  The new swarm carries
    that sum as its [fitness_sum] and the next generation number. *)
Theorem selection_succeeds_below_the_sum (r : Draws) (p q : Population)
  (g : Globals) :
  all_dots_dead p = true ->
  dots p <> [] ->
  Population_calculate_fitness p = Ok q ->
  (forall i,
     (select_draw r i 0 (fold_left add_fitness (dots q) 0)
      <? fold_left add_fitness (dots q) 0) = true) ->
  exists st',
    main_pass r (p, g) = Ok st' /\
    gen (fst st') = S (gen p) /\
    fitness_sum (fst st') = fold_left add_fitness (dots q) 0.
Proof.
  intros D N Hq Hr. unfold main_pass. rewrite D, Hq. cbn [bind].
  assert (dots q <> [] /\ gen q = gen p) as [Nq Gq].
  { unfold Population_calculate_fitness in Hq.
    apply bind_Ok in Hq. destruct Hq as (ds1 & Hc & Hq).
    injection Hq as <-. cbn [set_dots dots gen].
    split; [| reflexivity].
    apply calculate_fitness_dots_Ok, Forall2_length in Hc.
    destruct ds1; [| discriminate].
    destruct (dots p); [congruence | discriminate Hc]. }
  unfold natural_selection, set_best_dot.
  destruct (nth_error (dots q) (snd (best_from 0 (dots q) 0 0)))
    as [best |] eqn:E.
  - unfold index. rewrite E. cbn [bind dots best_dot]. rewrite E.
    cbn [bind]. cbn [calculate_fitness_sum dots].
    match goal with
    | |- context [babies_from ?self ?u ?i0 ?n0] =>
        assert (forall i, exists d, select_parent (u i) self = Parent d)
          as HS;
        [| destruct (babies_from_returns self u HS n0 i0) as [l ->]]
    end.
    + intros i. unfold select_parent. cbn [fitness_sum dots].
      apply select_from_below_the_sum; [exact Nq | apply Hr].
    + cbn [bind]. eexists. split; [reflexivity |].
      cbn [fst mutate_babies dots set_dots gen fitness_sum min_step
           calculate_fitness_sum].
      rewrite Gq. split; reflexivity.
  - exfalso. apply nth_error_None in E.
    destruct (best_from_index (dots q) 0 0 0) as [B | B].
    + rewrite B in E. destruct (dots q); [congruence |].
      cbn [length] in E. lia.
    + lia.
Qed.

Lemma selection_succeeds_below_the_sum_witness :
  let g := {| dead_count := 1; goal_count := 2 |} in
  exists p q,
    main_loop (fun _ => trio_draws) 401 trio_start = Ok (p, g) /\
    Population_calculate_fitness p = Ok q /\
    exists st',
      main_pass trio_draws (p, g) = Ok st' /\
      gen (fst st') = S (gen p) /\
      fitness_sum (fst st') = fold_left add_fitness (dots q) 0.
Proof.
  intros g. eexists. eexists.
  split; [vm_compute; reflexivity |].
  split; [vm_compute; reflexivity |].
  lazymatch goal with
  | |- exists st', main_pass _ (?p, _) = _ /\ _ /\
                   _ = fold_left _ (dots ?q) _ =>
      apply (selection_succeeds_below_the_sum trio_draws p q g)
  end.
  - vm_compute. reflexivity.
  - discriminate.
  - vm_compute. reflexivity.
  - intros [| [| [| [| i]]]]; vm_compute; reflexivity.
Defined.

(** ** Active dots *)

Lemma check_collisions_active (d : Dot) (g : Globals) :
  terminal (fst (check_collisions d g)) = false ->
  out_of_bounds (pos d) = false /\ in_goal (pos d) = false /\
  in_rect rect_1 (pos d) = false /\ in_rect rect_2 (pos d) = false /\
  pos (fst (check_collisions d g)) = pos d.
Proof.
  unfold check_collisions, terminal.
  destruct (out_of_bounds (pos d));
    [cbn [fst set_dead dead]; discriminate |].
  destruct (in_goal (pos d));
    [cbn [fst set_reached_goal reached_goal]; intros H;
     rewrite orb_true_r in H; discriminate H |].
  destruct (in_rect rect_1 (pos d));
    [cbn [fst set_dead dead]; discriminate |].
  destruct (in_rect rect_2 (pos d));
    [cbn [fst set_dead dead]; discriminate |].
  intros _. repeat split.
Qed.

Lemma update_dot_active (m : nat) (d : Dot) (g : Globals) :
  terminal (fst (update_dot m d g)) = false ->
  terminal d = false /\
  step (brain (fst (update_dot m d g))) = S (step (brain d)) /\
  out_of_bounds (pos (fst (update_dot m d g))) = false /\
  in_goal (pos (fst (update_dot m d g))) = false /\
  in_rect rect_1 (pos (fst (update_dot m d g))) = false /\
  in_rect rect_2 (pos (fst (update_dot m d g))) = false.
Proof.
  rewrite update_dot_fst. destruct (m <? step (brain d))%nat.
  - unfold terminal. cbn [set_dead dead]. discriminate.
  - destruct (terminal d) eqn:T.
    + rewrite (advance_terminal d T). congruence.
    + intros T'. split; [reflexivity |]. split.
      * destruct (advance_active d T) as (A & B & _).
        destruct (Nat.lt_ge_cases (step (brain d))
                    (length (directions (brain d)))) as [Lt | Ge].
        -- apply A, Lt.
        -- destruct (B Ge) as [_ Dd]. unfold terminal in T'.
           rewrite Dd in T'. discriminate T'.
      * unfold advance in *. rewrite (update_active d _ T) in *.
        destruct (check_collisions_active _ _ T') as (A & B & C & D & ->).
        repeat split; assumption.
Qed.

(** A comparison of two numbers that fails holds the other way round. *)
Lemma SFcompare_antisym (x y : spec_float) :
  SFcompare y x = option_map CompOpp (SFcompare x y).
Proof.
  destruct x as [sx | sx | | sx mx ex], y as [sy | sy | | sy my ey];
    try (destruct sx); try (destruct sy); try reflexivity;
    cbn [SFcompare option_map];
    change (Pos.compare_cont Eq mx my) with (Pos.compare mx my);
    change (Pos.compare_cont Eq my mx) with (Pos.compare my mx);
    rewrite (Z.compare_antisym ex ey), (Pos.compare_antisym mx my);
    destruct (ex ?= ey)%Z, (mx ?= my)%positive; reflexivity.
Qed.

Lemma ltb_false_leb (a b : float) :
  is_nan a = false -> is_nan b = false ->
  (a <? b) = false -> (b <=? a) = true.
Proof.
  unfold is_nan. rewrite !FloatAxioms.eqb_spec, FloatAxioms.ltb_spec, FloatAxioms.leb_spec.
  unfold SFeqb, SFltb, SFleb.
  rewrite (SFcompare_antisym (Prim2SF a) (Prim2SF b)).
  intros Na Nb.
  destruct (SFcompare (Prim2SF a) (Prim2SF b)) as [[] |] eqn:C;
    cbn [option_map CompOpp]; try discriminate; try reflexivity.
  exfalso.
  destruct (Prim2SF a) as [[] | [] | | [] ma ea],
    (Prim2SF b) as [[] | [] | | [] mb eb];
    cbn in Na, Nb, C; try discriminate.
Qed.

(** A position with two numbers for coordinates that fails the window
    test of [Dot.update] lies inside the window. *)
Lemma inside_the_window (p : vec) :
  out_of_bounds p = false ->
  is_nan (fst p) = false -> is_nan (snd p) = false ->
  (2 <=? fst p) = true /\ (fst p <=? height - 2) = true /\
  (2 <=? snd p) = true /\ (snd p <=? width - 2) = true.
Proof.
  unfold out_of_bounds, gtb. intros H N0 N1.
  apply orb_false_iff in H. destruct H as [H H4].
  apply orb_false_iff in H. destruct H as [H H3].
  apply orb_false_iff in H. destruct H as [H1 H2].
  repeat split; apply ltb_false_leb; try assumption; reflexivity.
Qed.

(** X15. In every state of a run the dots that are still active move in
    lockstep: any two of them have taken the same number of steps.  None
    of them meets the window test or an obstacle test of [Dot.update] on
    its position, so that an active dot whose coordinates are numbers lies
    inside the window, from 2 to 798 and from 2 to 1598, and outside both
    obstacles. *)
Theorem active_dots_move_in_lockstep (n : nat)
  (st : Population * Globals) :
  reachable n st ->
  exists k,
    Forall (fun d => terminal d = false ->
                     step (brain d) = k /\
                     out_of_bounds (pos d) = false /\
                     in_rect rect_1 (pos d) = false /\
                     in_rect rect_2 (pos d) = false /\
                     (is_nan (fst (pos d)) = false ->
                      is_nan (snd (pos d)) = false ->
                      (2 <=? fst (pos d)) = true /\
                      (fst (pos d) <=? height - 2) = true /\
                      (2 <=? snd (pos d)) = true /\
                      (snd (pos d) <=? width - 2) = true))
      (dots (fst st)).
Proof.
  intros R.
  assert (exists k,
            Forall (fun d => terminal d = false ->
                             step (brain d) = k /\
                             out_of_bounds (pos d) = false /\
                             in_rect rect_1 (pos d) = false /\
                             in_rect rect_2 (pos d) = false)
              (dots (fst st))) as [k A].
  { induction R as [gauss | r [p g] st' R [k IH] H].
    - exists 0%nat. unfold main_start, Population_new. cbn [fst dots].
      rewrite Forall_forall. intros d Hd. apply in_map_iff in Hd.
      destruct Hd as (i & <- & _). intros _.
      split; [reflexivity |]. repeat split; vm_compute; reflexivity.
    - cbn [fst] in IH. destruct (all_dots_dead p) eqn:D.
      + exists 0%nat.
        destruct (generation_pass r p g st' D H)
          as (ds1 & best & babies & _ & _ & _ & Hpar & ->).
        cbn [fst dots]. constructor.
        * intros _. split; [reflexivity |].
          repeat split; vm_compute; reflexivity.
        * rewrite Forall_forall. intros d Hd.
          destruct (mutate_dots_from_In _ _ _ _ _ Hd) as (b & j & Hin & ->).
          destruct (Hpar b Hin) as (parent & _ & ->). intros _.
          split; [reflexivity |]. repeat split; vm_compute; reflexivity.
      + exists (S k). rewrite (update_pass r p g D) in H. injection H as <-.
        rewrite Population_update_fst. cbn [set_dots dots].
        apply (update_dots_Forall_to
                 (fun d => terminal d = false ->
                           step (brain d) = k /\
                           out_of_bounds (pos d) = false /\
                           in_rect rect_1 (pos d) = false /\
                           in_rect rect_2 (pos d) = false));
          [| exact IH].
        intros d g0 Hd T'.
        destruct (update_dot_active _ d g0 T') as (T & E & F1 & _ & F3 & F4).
        destruct (Hd T) as [Ek _]. split; [lia |]. repeat split; assumption. }
  exists k. eapply Forall_impl; [| exact A].
  intros d Hd T. destruct (Hd T) as (E & O & R1 & R2).
  split; [exact E |]. split; [exact O |]. split; [exact R1 |].
  split; [exact R2 |]. apply inside_the_window, O.
Qed.

Lemma active_dots_move_in_lockstep_witness :
  exists st,
    main_loop (fun _ => trio_draws) 450 trio_start = Ok st /\
    map (fun d => (terminal d, step (brain d), pos d)) (dots (fst st))
    = [(false, 48%nat, (675, 905)); (false, 48%nat, (675, 905));
       (false, 48%nat, (675, 1520))] /\
    exists k,
      Forall (fun d => terminal d = false ->
                       step (brain d) = k /\
                       out_of_bounds (pos d) = false /\
                       in_rect rect_1 (pos d) = false /\
                       in_rect rect_2 (pos d) = false /\
                       (is_nan (fst (pos d)) = false ->
                        is_nan (snd (pos d)) = false ->
                        (2 <=? fst (pos d)) = true /\
                        (fst (pos d) <=? height - 2) = true /\
                        (2 <=? snd (pos d)) = true /\
                        (snd (pos d) <=? width - 2) = true))
        (dots (fst st)).
Proof.
  eexists. split; [vm_compute; reflexivity |].
  split; [reflexivity |].
  apply (active_dots_move_in_lockstep 3).
  apply (main_loop_reachable (fun _ => trio_draws)
           (fun i => draws_of (nth i [fast_draws; slow_draws; hover_draws] []))
           3 450).
  vm_compute. reflexivity.
Defined.
